(** * QR code image pipeline: styled rendering, logo overlay, file output

    A shallow embedding of [generate_qr.py]: the style dispatch of
    [_make_styled_image], the logo geometry and error recovery of
    [_paste_logo_center], and the orchestration of [generate_qr].

    The [qrcode] encoder, the Pillow rasteriser and the file system are
    collaborators of the program.  They are gathered in one record of
    operations, [Lib]; every call that can raise in Python returns an
    [outcome].  Python's [float] is IEEE-754 binary64, round to nearest
    even; it is modelled with the executable specification of
    [SpecFloat] at precision 53 and maximal exponent 1024. *)

From Stdlib Require Import ZArith Lia Bool List.
From Stdlib Require Import Floats.SpecFloat.
From stdpp Require Import base option strings gmap.
From Stdlib Require Import Ascii.

Local Open Scope Z_scope.

(** ** Exceptions and outcomes *)

(** Instances of Python's [Exception] class, the ones an
    [except Exception] clause handles. *)
Inductive exn : Type :=
  | ImportError
  | ValueError
  | ZeroDivisionError
  | OverflowError
  | OSError
  | DataOverflowError
  | LibraryError (name : string).

Inductive outcome (A : Type) : Type :=
  | Ok (a : A)
  | Raise (e : exn).
Arguments Ok {A} a.
Arguments Raise {A} e.

Definition bind {A B} (c : outcome A) (k : A -> outcome B) : outcome B :=
  match c with
  | Ok a => k a
  | Raise e => Raise e
  end.

(** [try: c except Exception: h] *)
Definition try_except {A} (c : outcome A) (h : exn -> outcome A) : outcome A :=
  match c with
  | Ok a => Ok a
  | Raise e => h e
  end.

Declare Scope py_scope.
Delimit Scope py_scope with py.
Notation "x <- c ;; k" := (bind c (fun x => k))
  (at level 100, c at next level, right associativity) : py_scope.
Notation "c ;;; k" := (bind c (fun _ => k))
  (at level 100, right associativity) : py_scope.
Local Open Scope py_scope.

Definition is_ok {A} (c : outcome A) : bool :=
  match c with Ok _ => true | Raise _ => false end.

(** ** Python numbers *)

Module PyFloat.

Definition prec : Z := 53.
Definition emax : Z := 1024.

Abbreviation float := spec_float.

Definition mul : float -> float -> float := SFmul prec emax.
Definition div : float -> float -> float := SFdiv prec emax.

(** [float(n)] for an integer [n]: the nearest double, and
    [OverflowError] when [n] is beyond the range of doubles. *)
Definition of_int (n : Z) : outcome float :=
  match binary_normalize prec emax n 0 false with
  | S754_infinity _ => Raise OverflowError
  | f => Ok f
  end.

(** [int(x)]: truncation toward zero; infinities and NaN raise. *)
Definition to_int (x : float) : outcome Z :=
  match x with
  | S754_zero _ => Ok 0
  | S754_finite s m e =>
      let v := if 0 <=? e then Z.pos m * 2 ^ e else Z.pos m / 2 ^ (- e) in
      Ok (if s then - v else v)
  | S754_infinity _ => Raise OverflowError
  | S754_nan => Raise ValueError
  end.

(** The literal [100.0]. *)
Definition hundred : float := binary_normalize prec emax 100 0 false.

(** [n / x] and [n * x] with [n] an int and [x] a float: [n] is
    converted first. *)
Definition int_div_float (n : Z) (x : float) : outcome float :=
  f <- of_int n ;;
  match x with
  | S754_zero _ => Raise ZeroDivisionError
  | _ => Ok (div f x)
  end.

Definition int_mul_float (n : Z) (x : float) : outcome float :=
  f <- of_int n ;; Ok (mul f x).

(** [a / b] with both operands ints: the correctly rounded quotient,
    [ZeroDivisionError] for a zero divisor, [OverflowError] when the
    quotient is beyond the range of doubles. *)
Definition exact (n : Z) : float :=
  match n with
  | Z0 => S754_zero false
  | Zpos p => S754_finite false p 0
  | Zneg p => S754_finite true p 0
  end.

Definition int_true_div (a b : Z) : outcome float :=
  if b =? 0 then Raise ZeroDivisionError
  else match div (exact a) (exact b) with
       | S754_infinity _ => Raise OverflowError
       | q => Ok q
       end.

End PyFloat.

(** ** Logo geometry: [_paste_logo_center], lines 93 to 97 *)

(** [logo_pct or 20]: [None] and [0] are falsy. *)
Definition or_20 (logo_pct : option Z) : Z :=
  match logo_pct with
  | None => 20
  | Some 0 => 20
  | Some n => n
  end.

(** [max(5, min(int(logo_pct or 20), 40))], the percentage as an int. *)
Definition logo_percent (logo_pct : option Z) : Z :=
  Z.max 5 (Z.min (or_20 logo_pct) 40).

(** [pct = max(5, min(int(logo_pct or 20), 40)) / 100.0] *)
Definition pct_of (logo_pct : option Z) : outcome PyFloat.float :=
  PyFloat.int_div_float (logo_percent logo_pct) PyFloat.hundred.

(** [target_w = max(1, int(qr_w * pct))] *)
Definition target_width (qr_w : Z) (logo_pct : option Z) : outcome Z :=
  pct <- pct_of logo_pct ;;
  x <- PyFloat.int_mul_float qr_w pct ;;
  n <- PyFloat.to_int x ;;
  Ok (Z.max 1 n).

(** [target_h = max(1, int(logo.height * (target_w / logo.width)))] *)
Definition target_height (logo_w logo_h target_w : Z) : outcome Z :=
  r <- PyFloat.int_true_div target_w logo_w ;;
  x <- PyFloat.int_mul_float logo_h r ;;
  n <- PyFloat.to_int x ;;
  Ok (Z.max 1 n).

(** [pos = ((qr_w - target_w) // 2, (qr_h - target_h) // 2)] *)
Definition center_pos (qr_w qr_h target_w target_h : Z) : Z * Z :=
  ((qr_w - target_w) / 2, (qr_h - target_h) / 2).

(** ** The collaborators

    [qrcode] (encoder and rasterisers), Pillow (logo decoding, resizing,
    compositing) and the file system.  [image] is a raster as Python
    sees it (a [qrcode] image wrapper or a [PIL.Image]), [logo] a decoded
    RGBA logo, [FS] the state of the file system. *)

Inductive ErrorCorrection : Type :=
  | ERROR_CORRECT_L | ERROR_CORRECT_M | ERROR_CORRECT_Q | ERROR_CORRECT_H.

Inductive ModuleDrawer : Type :=
  | SquareModuleDrawer
  | GappedSquareModuleDrawer
  | CircleModuleDrawer
  | RoundedModuleDrawer
  | VerticalBarsDrawer
  | HorizontalBarsDrawer.

(** The [qrcode.QRCode] object once [make(fit=True)] has run. *)
Record QRCode : Type := {
  version : option Z;
  error_correction : ErrorCorrection;
  box_size : Z;
  border : Z;
  modules : list (list bool)
}.

Definition modules_count (qr : QRCode) : Z := Z.of_nat (length (modules qr)).

Record Lib (image logo FS : Type) : Type := {
  (** [qrcode.QRCode(...)]: the constructor checks [box_size], [border]. *)
  QRCode_init : Z -> Z -> outcome unit;
  (** [qr.add_data(url); qr.make(fit=True)] with [version=None]. *)
  encode : ErrorCorrection -> string -> outcome (list (list bool));
  (** [qr.make_image(fill_color=..., back_color=...)] *)
  make_image : QRCode -> string -> string -> outcome image;
  (** [from qrcode.image.styledpil import StyledPilImage] and the
      import of the module drawers. *)
  import_styledpil : outcome unit;
  (** [qr.make_image(image_factory=StyledPilImage,
      module_drawer=drawer_cls(), fill_color=..., back_color=...)] *)
  make_image_styled : QRCode -> ModuleDrawer -> string -> string -> outcome image;
  (** [hasattr(img, "get_image")] and [img.get_image()] *)
  has_get_image : image -> bool;
  get_image : image -> image;
  (** [pil_img.size] *)
  size : image -> Z * Z;
  (** [os.path.isfile(logo_path)] *)
  isfile : FS -> string -> bool;
  (** [from PIL import Image] *)
  import_PIL : outcome unit;
  (** [Image.open(logo_path).convert("RGBA")] *)
  Image_open : FS -> string -> outcome logo;
  logo_width : logo -> Z;
  logo_height : logo -> Z;
  (** [logo.resize((target_w, target_h), Image.LANCZOS)] *)
  resize : logo -> Z * Z -> outcome logo;
  (** [pil_img.paste(logo, pos, mask=logo)]; Pillow checks its arguments
      before it writes into the buffer, a call that raises leaves the
      raster as it was. *)
  paste : image -> logo -> Z * Z -> outcome image;
  (** [pil_img.save(output_path)] *)
  save : FS -> image -> string -> FS * outcome unit
}.

Arguments QRCode_init {image logo FS}.
Arguments encode {image logo FS}.
Arguments make_image {image logo FS}.
Arguments import_styledpil {image logo FS}.
Arguments make_image_styled {image logo FS}.
Arguments has_get_image {image logo FS}.
Arguments get_image {image logo FS}.
Arguments size {image logo FS}.
Arguments isfile {image logo FS}.
Arguments import_PIL {image logo FS}.
Arguments Image_open {image logo FS}.
Arguments logo_width {image logo FS}.
Arguments logo_height {image logo FS}.
Arguments resize {image logo FS}.
Arguments paste {image logo FS}.
Arguments save {image logo FS}.

(** Truthiness of a [str] and of a [str | None]. *)
Definition truthy (s : string) : bool := negb (String.eqb s "").

Definition truthy_opt (s : option string) : bool :=
  match s with
  | Some s => truthy s
  | None => false
  end.

(** ** [_make_styled_image] *)

Definition drawer_map : gmap string ModuleDrawer :=
  <["square" := SquareModuleDrawer]>
  (<["gapped" := GappedSquareModuleDrawer]>
  (<["circle" := CircleModuleDrawer]>
  (<["rounded" := RoundedModuleDrawer]>
  (<["vbars" := VerticalBarsDrawer]>
  (<["hbars" := HorizontalBarsDrawer]> ∅))))).

(** [drawer_map.get(style, SquareModuleDrawer)] *)
Definition drawer_cls (style : string) : ModuleDrawer :=
  default SquareModuleDrawer (drawer_map !! style).

(** The file system and the calls to [save] made so far, latest last. *)
Record world (image FS : Type) : Type := {
  fs : FS;
  writes : list (string * image)
}.
Arguments fs {image FS}.
Arguments writes {image FS}.

Declare Scope io_scope.
Delimit Scope io_scope with io.

Section Pipeline.

Context {image logo FS : Type} (L : Lib image logo FS).

(** The body of the [try] block, lines 53 to 76. *)
Definition styled_pathway (qr : QRCode) (fill_color back_color style : string)
  : outcome image :=
  import_styledpil L ;;;
  make_image_styled L qr (drawer_cls style) fill_color back_color.

Definition _make_styled_image (qr : QRCode) (fill_color back_color style : string)
  : outcome image :=
  try_except (styled_pathway qr fill_color back_color style)
    (fun _ => make_image L qr fill_color back_color).

(** ** [_paste_logo_center] *)

(** Lines 91 to 98, once the path has passed the guard and Pillow is
    loaded. *)
Definition paste_logo (fs : FS) (pil_img : image) (path : string)
    (logo_pct : option Z) : outcome image :=
  lg <- Image_open L fs path ;;
  let '(qr_w, qr_h) := size L pil_img in
  target_w <- target_width qr_w logo_pct ;;
  target_h <- target_height (logo_width L lg) (logo_height L lg) target_w ;;
  lg' <- resize L lg (target_w, target_h) ;;
  paste L pil_img lg' (center_pos qr_w qr_h target_w target_h).

Definition _paste_logo_center (fs : FS) (pil_img : image)
    (logo_path : option string) (logo_pct : option Z) : image :=
  match logo_path with
  | None => pil_img
  | Some path =>
      if negb (truthy path) || negb (isfile L fs path) then pil_img
      else match import_PIL L with
           | Raise _ => pil_img
           | Ok _ =>
               match paste_logo fs pil_img path logo_pct with
               | Ok img => img
               | Raise _ => pil_img
               end
           end
  end.

(** ** [generate_qr] *)

Definition M (A : Type) : Type := world image FS -> world image FS * outcome A.

Definition ret {A} (a : A) : M A := fun w => (w, Ok a).

Definition lift {A} (c : outcome A) : M A := fun w => (w, c).

Definition mbind {A B} (c : M A) (k : A -> M B) : M B :=
  fun w => match c w with
           | (w', Ok a) => k a w'
           | (w', Raise e) => (w', Raise e)
           end.

Definition read_fs : M FS := fun w => (w, Ok (fs w)).

(** [pil_img.save(output_path)], recorded in the log of writes. *)
Definition save_image (pil_img : image) (output_path : string) : M unit :=
  fun w =>
    let '(fs', r) := save L (fs w) pil_img output_path in
    ({| fs := fs'; writes := writes w ++ [(output_path, pil_img)] |}, r).

(** Lines 116 to 123. *)
Definition new_QRCode (url : string) (box_size border : Z) : outcome QRCode :=
  QRCode_init L box_size border ;;;
  m <- encode L ERROR_CORRECT_M url ;;
  Ok {| version := None; error_correction := ERROR_CORRECT_M;
        box_size := box_size; border := border; modules := m |}.

(** Lines 126 to 129. *)
Definition render (qr : QRCode) (fill_color back_color style : string)
  : outcome image :=
  if truthy style && negb (String.eqb style "square")
  then _make_styled_image qr fill_color back_color style
  else make_image L qr fill_color back_color.

(** Line 132. *)
Definition as_pil (img : image) : image :=
  if has_get_image L img then get_image L img else img.

Notation "x <- c ;; k" := (mbind c (fun x => k))
  (at level 100, c at next level, right associativity) : io_scope.

Definition generate_qr (url output_path : string) (box_size border : Z)
    (fill_color back_color style : string)
    (logo_path : option string) (logo_size : option Z) : M string :=
  (qr <- lift (new_QRCode url box_size border) ;;
   img <- lift (render qr fill_color back_color style) ;;
   let pil_img := as_pil img in
   pil_img <- (if truthy_opt logo_path
               then fs <- read_fs ;;
                    ret (_paste_logo_center fs pil_img logo_path logo_size)
               else ret pil_img) ;;
   _ <- save_image pil_img output_path ;;
   ret output_path)%io.

End Pipeline.

Arguments generate_qr {image logo FS} L url output_path box_size border
  fill_color back_color style logo_path logo_size _.

(** ** Conditions named by the statements *)

Definition supported_styles : list string :=
  ["square"; "gapped"; "circle"; "rounded"; "vbars"; "hbars"].

(** Side in pixels of the raster of a code, [(modules_count + 2 * border)
    * box_size]: the dimensions the specification gives for a rendered
    image and the rasterisers of [qrcode] produce. *)
Definition pixel_size (qr : QRCode) : Z :=
  (modules_count qr + 2 * border qr) * box_size qr.

(** The clamp and the target width in the words of the specification:
    [clamp(sizePercent, 5, 40)] and
    [image.width * clamp(sizePercent, 5, 40) / 100], at least one pixel. *)
Definition spec_clamp (sizePercent : Z) : Z := Z.min 40 (Z.max 5 sizePercent).

Definition spec_target_width (image_width sizePercent : Z) : Z :=
  Z.max 1 (image_width * spec_clamp sizePercent / 100).

Section Conditions.

Context {image logo FS : Type} (L : Lib image logo FS).

(** What can go wrong inside the [try] block of [_make_styled_image]:
    the styled factory or the drawers cannot be imported, or building
    the styled image raises. *)
Inductive styled_failure (qr : QRCode) (fill_color back_color style : string)
  : Prop :=
  | dependency_missing (e : exn) :
      import_styledpil L = Raise e ->
      styled_failure qr fill_color back_color style
  | styled_image_raised (e : exn) :
      make_image_styled L qr (drawer_cls style) fill_color back_color = Raise e ->
      styled_failure qr fill_color back_color style.

(** The ways the overlay of a logo can fail: no path, not a file, no
    Pillow, a file that cannot be decoded, arithmetic that raises (a logo
    of width zero), a resize or a paste that raises. *)
Inductive overlay_failure (fs : FS) (pil_img : image)
    (logo_path : option string) (logo_pct : option Z) : Prop :=
  | logo_absent :
      truthy_opt logo_path = false ->
      overlay_failure fs pil_img logo_path logo_pct
  | logo_not_a_file (path : string) :
      logo_path = Some path ->
      isfile L fs path = false ->
      overlay_failure fs pil_img logo_path logo_pct
  | pillow_missing (e : exn) :
      import_PIL L = Raise e ->
      overlay_failure fs pil_img logo_path logo_pct
  | logo_undecodable (path : string) (e : exn) :
      logo_path = Some path ->
      Image_open L fs path = Raise e ->
      overlay_failure fs pil_img logo_path logo_pct
  | logo_width_raised (path : string) (lg : logo) (e : exn) :
      logo_path = Some path ->
      Image_open L fs path = Ok lg ->
      target_width (fst (size L pil_img)) logo_pct = Raise e ->
      overlay_failure fs pil_img logo_path logo_pct
  | logo_height_raised (path : string) (lg : logo) (target_w : Z) (e : exn) :
      logo_path = Some path ->
      Image_open L fs path = Ok lg ->
      target_width (fst (size L pil_img)) logo_pct = Ok target_w ->
      target_height (logo_width L lg) (logo_height L lg) target_w = Raise e ->
      overlay_failure fs pil_img logo_path logo_pct
  | logo_resize_raised (path : string) (lg : logo) (target_w target_h : Z)
      (e : exn) :
      logo_path = Some path ->
      Image_open L fs path = Ok lg ->
      target_width (fst (size L pil_img)) logo_pct = Ok target_w ->
      target_height (logo_width L lg) (logo_height L lg) target_w = Ok target_h ->
      resize L lg (target_w, target_h) = Raise e ->
      overlay_failure fs pil_img logo_path logo_pct
  | logo_paste_raised (path : string) (lg lg' : logo) (target_w target_h : Z)
      (e : exn) :
      logo_path = Some path ->
      Image_open L fs path = Ok lg ->
      target_width (fst (size L pil_img)) logo_pct = Ok target_w ->
      target_height (logo_width L lg) (logo_height L lg) target_w = Ok target_h ->
      resize L lg (target_w, target_h) = Ok lg' ->
      paste L pil_img lg'
        (center_pos (fst (size L pil_img)) (snd (size L pil_img))
           target_w target_h) = Raise e ->
      overlay_failure fs pil_img logo_path logo_pct.

(** The size contract of the rasterisers: both factories produce a
    square raster of [pixel_size] pixels, unwrapping it and pasting onto
    it keep its size. *)
Record raster_sizes : Prop := {
  make_image_size : forall qr fill_color back_color img,
    make_image L qr fill_color back_color = Ok img ->
    size L img = (pixel_size qr, pixel_size qr);
  make_image_styled_size : forall qr d fill_color back_color img,
    make_image_styled L qr d fill_color back_color = Ok img ->
    size L img = (pixel_size qr, pixel_size qr);
  get_image_size : forall img,
    has_get_image L img = true -> size L (get_image L img) = size L img;
  paste_size : forall img lg pos img',
    paste L img lg pos = Ok img' -> size L img' = size L img
}.

End Conditions.

(** ** A small instance of the collaborators

    Rasters are kept symbolic: what was drawn, with which colours and
    drawer, and what was pasted on top.  The encoder knows the byte
    capacities of versions 1 to 3 at level M.  The styled factory takes
    its colours from its colour mask (black on white) and produces an
    RGB raster, the default factory honours [fill_color] and
    [back_color] and rejects colour names it does not know. *)

Module Sample.

Record raster : Type := {
  mode : string;
  width : Z;
  height : Z;
  drawn : list (list bool);
  fill : string;
  back : string;
  drawer : option ModuleDrawer;
  overlays : list (string * (Z * Z) * (Z * Z))
}.

Record decoded : Type := {
  name : string;
  lw : Z;
  lh : Z
}.

Inductive file : Type :=
  | ImageFile (r : raster)
  | LogoFile (l : decoded)
  | TextFile (s : string).

Definition known_color (c : string) : bool :=
  bool_decide (c ∈ ["black"; "white"; "red"; "green"; "blue"]).

Definition side_for (data : string) : outcome Z :=
  let n := Z.of_nat (String.length data) in
  if n <=? 14 then Ok 21
  else if n <=? 26 then Ok 25
  else if n <=? 42 then Ok 29
  else Raise DataOverflowError.

Definition lib (styled_available pillow_available : bool)
  : Lib raster decoded (gmap string file) := {|
  QRCode_init := fun box_size border =>
    if (box_size <=? 0) || (border <? 0) then Raise ValueError else Ok tt;
  encode := fun _ data =>
    n <- side_for data ;;
    Ok (repeat (repeat true (Z.to_nat n)) (Z.to_nat n));
  make_image := fun qr fill_color back_color =>
    if known_color fill_color && known_color back_color
    then Ok {| mode := if String.eqb fill_color "black" && String.eqb back_color "white"
                       then "1" else "RGB";
               width := pixel_size qr; height := pixel_size qr;
               drawn := modules qr; fill := fill_color; back := back_color;
               drawer := None; overlays := [] |}
    else Raise ValueError;
  import_styledpil := if styled_available then Ok tt else Raise ImportError;
  make_image_styled := fun qr d _ _ =>
    Ok {| mode := "RGB";
          width := pixel_size qr; height := pixel_size qr;
          drawn := modules qr; fill := "black"; back := "white";
          drawer := Some d; overlays := [] |};
  has_get_image := fun _ => true;
  get_image := fun r => r;
  size := fun r => (width r, height r);
  isfile := fun fs path => bool_decide (is_Some (fs !! path));
  import_PIL := if pillow_available then Ok tt else Raise ImportError;
  Image_open := fun fs path =>
    match fs !! path with
    | Some (LogoFile l) => Ok l
    | Some (ImageFile r) =>
        Ok {| name := path; lw := width r; lh := height r |}
    | Some (TextFile _) => Raise (LibraryError "UnidentifiedImageError")
    | None => Raise OSError
    end;
  logo_width := lw;
  logo_height := lh;
  resize := fun l '(w, h) =>
    if (w <=? 0) || (h <=? 0) then Raise ValueError
    else Ok {| name := name l; lw := w; lh := h |};
  paste := fun r l pos =>
    Ok {| mode := mode r; width := width r; height := height r;
          drawn := drawn r; fill := fill r; back := back r;
          drawer := drawer r;
          overlays := overlays r ++ [(name l, (lw l, lh l), pos)] |};
  save := fun fs r path =>
    if String.prefix "/nonexistent/" path then (fs, Raise OSError)
    else (<[path := ImageFile r]> fs, Ok tt)
|}.

Definition full : Lib raster decoded (gmap string file) := lib true true.

Definition disk : gmap string file :=
  <["logo.png" := LogoFile {| name := "logo.png"; lw := 300; lh := 150 |}]>
  (<["notes.txt" := TextFile "hello"]> ∅).

Definition w0 : world raster (gmap string file) :=
  {| fs := disk; writes := [] |}.

(** Version 1, [box_size = 4], [border = 2]: a raster of 100 pixels. *)
Definition qr100 : QRCode :=
  {| version := None; error_correction := ERROR_CORRECT_M;
     box_size := 4; border := 2;
     modules := repeat (repeat true 21) 21 |}.

(** The plain black on white rendering of [qr100]. *)
Definition img100 : raster :=
  {| mode := "1"; width := 100; height := 100;
     drawn := repeat (repeat true 21) 21;
     fill := "black"; back := "white"; drawer := None; overlays := [] |}.

(** [img100] with the logo at 29 percent: 28 by 14 pixels at (36, 43). *)
Definition img100_logo : raster :=
  {| mode := "1"; width := 100; height := 100;
     drawn := repeat (repeat true 21) 21;
     fill := "black"; back := "white"; drawer := None;
     overlays := [("logo.png", (28, 14), (36, 43))] |}.

End Sample.

(** ** Text: [str.strip], [str.lower], [str.isalnum]

    A character of a [string] is a code point below 256; the tables are
    those of the Unicode database for that range. *)

Definition code (c : Ascii.ascii) : N := Ascii.N_of_ascii c.

Definition between (lo hi : N) (c : Ascii.ascii) : bool :=
  ((lo <=? code c) && (code c <=? hi))%N.

(** [c.isspace()] *)
Definition isspace (c : Ascii.ascii) : bool :=
  between 9 13 c || between 28 32 c || between 133 133 c || between 160 160 c.

(** [c.isalnum()] *)
Definition isalnum (c : Ascii.ascii) : bool :=
  between 48 57 c || between 65 90 c || between 97 122 c
  || between 170 170 c || between 178 179 c || between 181 181 c
  || between 185 186 c || between 188 190 c
  || between 192 214 c || between 216 246 c || between 248 255 c.

(** [c.lower()] *)
Definition lower_char (c : Ascii.ascii) : Ascii.ascii :=
  if between 65 90 c || between 192 214 c || between 216 222 c
  then Ascii.ascii_of_N (code c + 32)
  else c.

(** [s.lower()] *)
Fixpoint lower (s : string) : string :=
  match s with
  | EmptyString => EmptyString
  | String c r => String (lower_char c) (lower r)
  end.

(** [s.lstrip()], [s.rstrip()] and [s.strip()] *)
Fixpoint lstrip (s : string) : string :=
  match s with
  | EmptyString => EmptyString
  | String c r => if isspace c then lstrip r else s
  end.

Fixpoint rstrip (s : string) : string :=
  match s with
  | EmptyString => EmptyString
  | String c r =>
      match rstrip r with
      | EmptyString => if isspace c then EmptyString else String c EmptyString
      | r' => String c r'
      end
  end.

Definition strip (s : string) : string := rstrip (lstrip s).

(** The first and the last character of a string. *)
Definition first_char (s : string) : option Ascii.ascii :=
  match s with
  | EmptyString => None
  | String c _ => Some c
  end.

Fixpoint last_char (s : string) : option Ascii.ascii :=
  match s with
  | EmptyString => None
  | String c EmptyString => Some c
  | String _ r => last_char r
  end.

(** [c in s] for a character [c]. *)
Fixpoint contains (c : Ascii.ascii) (s : string) : bool :=
  match s with
  | EmptyString => false
  | String a r => Ascii.eqb a c || contains c r
  end.

(** Every character of [s] satisfies [f]. *)
Fixpoint all_chars (f : Ascii.ascii -> bool) (s : string) : bool :=
  match s with
  | EmptyString => true
  | String c r => f c && all_chars f r
  end.

(** ** The helpers of the command line: lines 28 to 47 *)

(** What the program reads of [urllib.parse.urlparse(url)]. *)
Record ParseResult : Type := {
  scheme : string;
  netloc : string
}.

(** The standard library and the terminal: [urlparse] can raise
    [ValueError], [input] can raise [EOFError]; the clock is read once,
    through [datetime.now().strftime(format)]. *)
Record Sys : Type := {
  urlparse : string -> outcome ParseResult;
  (** [os.path.splitext(path)] *)
  splitext : string -> string * string;
  (** [input(prompt)] *)
  input : string -> outcome string;
  strftime_now : string -> string;
  (** [os.path.abspath(path)] *)
  abspath : string -> string;
  (** [str(e)] for an exception, as an f-string formats it. *)
  str_exn : exn -> string
}.

Section Helpers.

Context (S : Sys).

Definition normalize_url (url : option string) : outcome string :=
  let url := strip (default "" url) in
  parsed <- urlparse S url ;;
  Ok (if truthy (scheme parsed) then url else "https://" +:+ url).

Definition is_likely_valid_url (url : string) : outcome bool :=
  parsed <- urlparse S url ;;
  Ok ((String.eqb (scheme parsed) "http" || String.eqb (scheme parsed) "https")
      && truthy (netloc parsed)).

(** [c if c.isalnum() or c in ("-", "_") else "-"] *)
Definition sanitize_char (c : Ascii.ascii) : Ascii.ascii :=
  if isalnum c || Ascii.eqb c "-" || Ascii.eqb c "_" then c else "-"%char.

Fixpoint sanitize_filename (text : string) : string :=
  match text with
  | EmptyString => EmptyString
  | String c r => String (sanitize_char c) (sanitize_filename r)
  end.

Definition ensure_png_extension (path : string) : string :=
  let '(root, ext) := splitext S path in
  if String.eqb (lower ext) ".png" then path else root +:+ ".png".

End Helpers.

Arguments sanitize_char c : assert.
Arguments sanitize_filename text : assert.

(** ** [main], after [parser.parse_args()]

    Lines 143 to 159 build the parser and call [parser.parse_args()];
    that call is [argparse]'s own code: it can print a usage or help
    text and leave the program with status 2 or 0 before line 161 is
    reached.  [main] below is the function from line 161 on, run on the
    namespace that [parse_args] returned. *)

(** The namespace that [argparse] returns. *)
Record Namespace : Type := {
  args_url : option string;
  args_output : option string;
  args_box_size : Z;
  args_border : Z;
  args_fg : string;
  args_bg : string;
  args_style : string;
  args_logo : option string;
  args_logo_size : Z
}.

(** How a run ends: it returns, an exception escapes, or [sys.exit]. *)
Inductive completion (A : Type) : Type :=
  | Returns (a : A)
  | Raises (e : exn)
  | Exits (code : Z).
Arguments Returns {A} a.
Arguments Raises {A} e.
Arguments Exits {A} code.

(** What reaches the terminal: a line of [print], a prompt of [input]. *)
Inductive output : Type :=
  | Printed (line : string)
  | Prompted (text : string).

Record process (image FS : Type) : Type := {
  files : world image FS;
  stdout : list output
}.
Arguments files {image FS}.
Arguments stdout {image FS}.

Declare Scope run_scope.
Delimit Scope run_scope with run.

Section Main.

Context {image logo FS : Type} (L : Lib image logo FS) (S : Sys).

Definition IO (A : Type) : Type :=
  process image FS -> process image FS * completion A.

Definition io_ret {A} (a : A) : IO A := fun p => (p, Returns a).

Definition io_bind {A B} (c : IO A) (k : A -> IO B) : IO B :=
  fun p => match c p with
           | (p', Returns a) => k a p'
           | (p', Raises e) => (p', Raises e)
           | (p', Exits n) => (p', Exits n)
           end.

Definition completion_of {A} (c : outcome A) : completion A :=
  match c with
  | Ok a => Returns a
  | Raise e => Raises e
  end.

Definition io_lift {A} (c : outcome A) : IO A := fun p => (p, completion_of c).

(** A computation of [generate_qr]'s monad, run on the files. *)
Definition io_run {A} (c : world image FS -> world image FS * outcome A) : IO A :=
  fun p =>
    let '(w', r) := c (files p) in
    ({| files := w'; stdout := stdout p |}, completion_of r).

Definition print (line : string) : IO unit :=
  fun p => ({| files := files p; stdout := stdout p ++ [Printed line] |},
            Returns tt).

Definition io_input (prompt : string) : IO string :=
  fun p => ({| files := files p; stdout := stdout p ++ [Prompted prompt] |},
            completion_of (input S prompt)).

Definition sys_exit {A} (code : Z) : IO A := fun p => (p, Exits code).

(** [try: c except Exception as e: h e]; [SystemExit] is not an
    [Exception]. *)
Definition io_try {A} (c : IO A) (h : exn -> IO A) : IO A :=
  fun p => match c p with
           | (p', Raises e) => h e p'
           | r => r
           end.

Notation "x <- c ;; k" := (io_bind c (fun x => k))
  (at level 100, c at next level, right associativity) : run_scope.
Notation "c ;;; k" := (io_bind c (fun _ => k))
  (at level 100, right associativity) : run_scope.

(** Lines 161 to 163: the URL of the command line, or the line typed at
    the prompt. *)
Definition read_url (args : Namespace) : IO string :=
  (if truthy_opt (args_url args)
   then io_ret (default "" (args_url args))
   else line <- io_input "Enter URL to encode: " ;;
        io_ret (strip line))%run.

(** Lines 170 to 176: the path given with [-o], or a name made of the
    host and the time. *)
Definition choose_output_path (args : Namespace) (url : string) : IO string :=
  (if truthy_opt (args_output args)
   then io_ret (ensure_png_extension S (strip (default "" (args_output args))))
   else parsed <- io_lift (urlparse S url) ;;
        let host := if truthy (netloc parsed) then netloc parsed else "qr" in
        let safe_host := sanitize_filename host in
        let ts := strftime_now S "%Y%m%d_%H%M%S" in
        io_ret ("qr_" +:+ safe_host +:+ "_" +:+ ts +:+ ".png"))%run.

Definition main (args : Namespace) : IO unit :=
  (url <- read_url args ;;
   url <- io_lift (normalize_url S (Some url)) ;;
   valid <- io_lift (is_likely_valid_url S url) ;;
   (if negb valid
    then print "Error: Please provide a valid URL (e.g., https://example.com)." ;;;
         sys_exit 1
    else io_ret tt) ;;;
   output_path <- choose_output_path args url ;;
   io_try
     (saved <- io_run (generate_qr L url output_path
                         (args_box_size args) (args_border args)
                         (args_fg args) (args_bg args) (args_style args)
                         (args_logo args) (Some (args_logo_size args))) ;;
      print ("QR code generated and saved to: " +:+ abspath S saved))
     (fun e =>
        print ("Failed to generate QR code: " +:+ str_exn S e) ;;;
        sys_exit 1))%run.

End Main.

Arguments read_url {image FS} S args _.
Arguments choose_output_path {image FS} S args url _.
Arguments main {image logo FS} L S args _.

(** The characters [sanitize_filename] lets through. *)
Definition safe_char (c : Ascii.ascii) : bool :=
  isalnum c || Ascii.eqb c "-" || Ascii.eqb c "_".

(** ** A small instance of the standard library and the terminal

    [urlparse] follows [urllib.parse.urlsplit] for the scheme and the
    network location, [splitext] follows [posixpath.splitext]; the user
    types [example.com] at the prompt and the clock shows 2 January
    2024, 03:04:05. *)

Module Host.

(** The text before the first colon and the text after it. *)
Fixpoint split_colon (s : string) : option (string * string) :=
  match s with
  | EmptyString => None
  | String c r =>
      if Ascii.eqb c ":" then Some (EmptyString, r)
      else match split_colon r with
           | Some (pre, post) => Some (String c pre, post)
           | None => None
           end
  end.

Definition ascii_alpha (c : Ascii.ascii) : bool :=
  between 65 90 c || between 97 122 c.

Definition scheme_char (c : Ascii.ascii) : bool :=
  ascii_alpha c || between 48 57 c
  || Ascii.eqb c "+" || Ascii.eqb c "-" || Ascii.eqb c ".".

Fixpoint until_delimiter (s : string) : string :=
  match s with
  | EmptyString => EmptyString
  | String c r =>
      if Ascii.eqb c "/" || Ascii.eqb c "?" || Ascii.eqb c "#"
      then EmptyString
      else String c (until_delimiter r)
  end.

Definition urlsplit (url : string) : outcome ParseResult :=
  let '(sch, rest) :=
    match split_colon url with
    | Some (String c pre, post) =>
        if ascii_alpha c && all_chars scheme_char pre
        then (lower (String c pre), post)
        else (EmptyString, url)
    | _ => (EmptyString, url)
    end in
  match rest with
  | String "/" (String "/" r) =>
      let nl := until_delimiter r in
      if xorb (contains "[" nl) (contains "]" nl) then Raise ValueError
      else Ok {| scheme := sch; netloc := nl |}
  | _ => Ok {| scheme := sch; netloc := EmptyString |}
  end.

(** [p.rfind(c)]: the index of the last [c], or -1. *)
Fixpoint rfind (c : Ascii.ascii) (s : string) : Z :=
  match s with
  | EmptyString => -1
  | String a r =>
      let i := rfind c r in
      if 0 <=? i then i + 1 else if Ascii.eqb a c then 0 else -1
  end.

Definition posix_splitext (p : string) : string * string :=
  let sep := rfind "/" p in
  let dot := rfind "." p in
  if sep <? dot
  then
    let name := String.substring (Z.to_nat (sep + 1))
                  (Z.to_nat (dot - (sep + 1))) p in
    if all_chars (fun c => Ascii.eqb c ".") name then (p, EmptyString)
    else (String.substring 0 (Z.to_nat dot) p,
          String.substring (Z.to_nat dot) (String.length p - Z.to_nat dot) p)
  else (p, EmptyString).

Definition sys : Sys := {|
  urlparse := urlsplit;
  splitext := posix_splitext;
  input := fun _ => Ok " example.com ";
  strftime_now := fun _ => "20240102_030405";
  abspath := fun p => "/home/user/" +:+ p;
  str_exn := fun e =>
    match e with
    | ImportError => "ImportError"
    | ValueError => "ValueError"
    | ZeroDivisionError => "division by zero"
    | OverflowError => "OverflowError"
    | OSError => "OSError"
    | DataOverflowError => "DataOverflowError"
    | LibraryError name => name
    end
|}.

Definition args (url output : option string) (fg : string) : Namespace :=
  {| args_url := url; args_output := output;
     args_box_size := 10; args_border := 4;
     args_fg := fg; args_bg := "white"; args_style := "square";
     args_logo := None; args_logo_size := 20 |}.

Definition p0 : process Sample.raster (gmap string Sample.file) :=
  {| files := Sample.w0; stdout := [] |}.

End Host.

(** * Properties

    ** The style renderer: fallback and dispatch *)

Lemma drawer_cls_supported :
  drawer_cls "square" = SquareModuleDrawer /\
  drawer_cls "gapped" = GappedSquareModuleDrawer /\
  drawer_cls "circle" = CircleModuleDrawer /\
  drawer_cls "rounded" = RoundedModuleDrawer /\
  drawer_cls "vbars" = VerticalBarsDrawer /\
  drawer_cls "hbars" = HorizontalBarsDrawer.
Proof. repeat split; vm_compute; reflexivity. Qed.

Lemma drawer_map_unsupported (style : string) :
  style ∉ supported_styles -> drawer_map !! style = None.
Proof.
  unfold supported_styles. intros Hout.
  repeat (apply not_elem_of_cons in Hout; destruct Hout as [? Hout]).
  unfold drawer_map.
  repeat (rewrite lookup_insert_ne by congruence).
  apply lookup_empty.
Qed.

Lemma drawer_cls_unsupported (style : string) :
  style ∉ supported_styles -> drawer_cls style = SquareModuleDrawer.
Proof.
  intros Hout. unfold drawer_cls.
  rewrite (drawer_map_unsupported style Hout). reflexivity.
Qed.

Section StyleRenderer.

Context {image logo FS : Type} (L : Lib image logo FS).

Lemma styled_failure_pathway qr fill_color back_color style :
  styled_failure L qr fill_color back_color style ->
  exists e, styled_pathway L qr fill_color back_color style = Raise e.
Proof.
  unfold styled_pathway.
  intros [e He | e He].
  - rewrite He. exists e. reflexivity.
  - destruct (import_styledpil L) as [[] | e0]; simpl.
    + exists e. exact He.
    + exists e0. reflexivity.
Qed.

Lemma render_plain_styles qr fill_color back_color style :
  truthy style && negb (String.eqb style "square") = false ->
  render L qr fill_color back_color style = make_image L qr fill_color back_color.
Proof. intros H. unfold render. rewrite H. reflexivity. Qed.

Lemma render_square qr fill_color back_color :
  render L qr fill_color back_color "square" = make_image L qr fill_color back_color.
Proof. reflexivity. Qed.

Lemma render_empty qr fill_color back_color :
  render L qr fill_color back_color "" = make_image L qr fill_color back_color.
Proof. reflexivity. Qed.

(** C1, amended.  Whatever the style, when the styled pathway fails
    (its import fails or building the styled image raises),
    [_make_styled_image] and the renderer end the way the plain
    rendering of the same code with the same colours ends (line 79):
    they return its image when it succeeds and raise what it raises
    when it fails.  The exception of the styled pathway itself is
    dropped. *)
Theorem styled_failure_falls_back_to_plain qr fill_color back_color style :
  styled_failure L qr fill_color back_color style ->
  _make_styled_image L qr fill_color back_color style
    = make_image L qr fill_color back_color
  /\ render L qr fill_color back_color style
    = make_image L qr fill_color back_color
  /\ (forall img, make_image L qr fill_color back_color = Ok img ->
                  _make_styled_image L qr fill_color back_color style = Ok img
                  /\ render L qr fill_color back_color style = Ok img)
  /\ (forall e, make_image L qr fill_color back_color = Raise e ->
                _make_styled_image L qr fill_color back_color style = Raise e
                /\ render L qr fill_color back_color style = Raise e).
Proof.
  intros Hfail.
  destruct (styled_failure_pathway _ _ _ _ Hfail) as [e He].
  assert (Hstyled : _make_styled_image L qr fill_color back_color style
                    = make_image L qr fill_color back_color).
  { unfold _make_styled_image. rewrite He. reflexivity. }
  assert (Hrender : render L qr fill_color back_color style
                    = make_image L qr fill_color back_color).
  { unfold render.
    destruct (truthy style && negb (String.eqb style "square")); auto. }
  split; [exact Hstyled|]. split; [exact Hrender|].
  rewrite Hstyled, Hrender. split; intros x Hx; split; exact Hx.
Qed.

(** A style outside the supported set is drawn like ["square"] by
    [_make_styled_image]. *)
Lemma _make_styled_image_unsupported qr fill_color back_color style :
  style ∉ supported_styles ->
  _make_styled_image L qr fill_color back_color style
    = _make_styled_image L qr fill_color back_color "square".
Proof.
  intros Hout. unfold _make_styled_image, styled_pathway.
  rewrite (drawer_cls_unsupported style Hout). reflexivity.
Qed.

(** C7, amended.  A style outside the six supported values gets the
    square module drawer: [_make_styled_image] returns for it what it
    returns for ["square"], and the renderer returns that image when
    the style is a non-empty string and the plain rendering when the
    style is empty. *)
Theorem unsupported_style_uses_square_drawer qr fill_color back_color style :
  style ∉ supported_styles ->
  drawer_cls style = SquareModuleDrawer
  /\ _make_styled_image L qr fill_color back_color style
      = _make_styled_image L qr fill_color back_color "square"
  /\ render L qr fill_color back_color style
      = if truthy style
        then _make_styled_image L qr fill_color back_color "square"
        else make_image L qr fill_color back_color.
Proof.
  intros Hout. split; [apply drawer_cls_unsupported, Hout|].
  split; [apply _make_styled_image_unsupported, Hout|].
  unfold render.
  assert (Hsq : String.eqb style "square" = false).
  { apply String.eqb_neq. intros ->. apply Hout.
    unfold supported_styles. apply elem_of_cons. left. reflexivity. }
  rewrite Hsq, andb_true_r.
  destruct (truthy style); [|reflexivity].
  apply _make_styled_image_unsupported, Hout.
Qed.

End StyleRenderer.

(** The sample library without the styled factory: the circle style
    falls back to the plain rendering, red on white. *)
Lemma styled_failure_falls_back_to_plain_witness :
  styled_failure (Sample.lib false true) Sample.qr100 "red" "white" "circle"
  /\ _make_styled_image (Sample.lib false true) Sample.qr100 "red" "white" "circle"
     = make_image (Sample.lib false true) Sample.qr100 "red" "white"
  /\ exists img,
       make_image (Sample.lib false true) Sample.qr100 "red" "white" = Ok img
       /\ render (Sample.lib false true) Sample.qr100 "red" "white" "circle"
          = Ok img.
Proof.
  assert (H : styled_failure (Sample.lib false true) Sample.qr100 "red" "white" "circle").
  { apply dependency_missing with (e := ImportError). reflexivity. }
  split; [exact H|].
  destruct (styled_failure_falls_back_to_plain
              (Sample.lib false true) Sample.qr100 "red" "white" "circle" H)
    as (Hstyled & _ & Hok & _).
  split; [exact Hstyled|].
  eexists. split; [reflexivity|].
  apply Hok. reflexivity.
Defined.

(** C1 as stated fails: the styled factory is missing, so the styled
    pathway fails, and the plain rendering of the handler rejects the
    fill colour; the renderer returns no image, a [ValueError] reaches
    its caller. *)
Lemma plain_fallback_failure_propagates :
  styled_failure (Sample.lib false true) Sample.qr100 "notacolor" "white" "circle"
  /\ render (Sample.lib false true) Sample.qr100 "notacolor" "white" "circle"
     = Raise ValueError
  /\ (forall img,
        render (Sample.lib false true) Sample.qr100 "notacolor" "white" "circle"
        <> Ok img).
Proof.
  split; [apply dependency_missing with (e := ImportError); reflexivity|].
  split; [vm_compute; reflexivity|].
  intros img H. vm_compute in H. discriminate H.
Qed.

Lemma hexagon_unsupported : "hexagon" ∉ supported_styles.
Proof.
  unfold supported_styles.
  repeat (apply not_elem_of_cons; split; [discriminate|]).
  apply not_elem_of_nil.
Qed.

Lemma unsupported_style_uses_square_drawer_witness :
  ("hexagon" ∉ supported_styles)
  /\ render Sample.full Sample.qr100 "red" "white" "hexagon"
     = _make_styled_image Sample.full Sample.qr100 "red" "white" "square".
Proof.
  split; [exact hexagon_unsupported|].
  exact (proj2 (proj2 (unsupported_style_uses_square_drawer
                         Sample.full Sample.qr100 "red" "white" "hexagon"
                         hexagon_unsupported))).
Defined.

(** C7 as stated fails: with the styled factory of the sample library,
    the image rendered for the unsupported style ["hexagon"] is not the
    image rendered for ["square"]. *)
Lemma unsupported_style_differs_from_square :
  ("hexagon" ∉ supported_styles)
  /\ render Sample.full Sample.qr100 "red" "white" "hexagon"
     <> render Sample.full Sample.qr100 "red" "white" "square".
Proof.
  split; [exact hexagon_unsupported|].
  vm_compute. intros H. discriminate H.
Qed.

(** ** The logo percentage *)

Lemma or_20_nonzero (n : Z) : n <> 0 -> or_20 (Some n) = n.
Proof. intros Hn. destruct n; simpl; congruence. Qed.

Lemma logo_percent_range (logo_pct : option Z) : 5 <= logo_percent logo_pct <= 40.
Proof. unfold logo_percent. lia. Qed.

Lemma logo_percent_nonzero (n : Z) : n <> 0 -> logo_percent (Some n) = spec_clamp n.
Proof.
  intros Hn. unfold logo_percent, spec_clamp.
  rewrite (or_20_nonzero n Hn). lia.
Qed.

Lemma logo_percent_fixed (c : Z) : 5 <= c <= 40 -> logo_percent (Some c) = c.
Proof.
  intros Hc. rewrite logo_percent_nonzero by lia. unfold spec_clamp. lia.
Qed.

Lemma logo_percent_idem (logo_pct : option Z) :
  logo_percent (Some (logo_percent logo_pct)) = logo_percent logo_pct.
Proof. apply logo_percent_fixed, logo_percent_range. Qed.

(** The geometry sees [logo_pct] through [logo_percent] only. *)
Lemma target_width_percent (qr_w : Z) (a b : option Z) :
  logo_percent a = logo_percent b -> target_width qr_w a = target_width qr_w b.
Proof. intros Hab. unfold target_width, pct_of. rewrite Hab. reflexivity. Qed.

Ltac each_percent c Hc :=
  let H := fresh in
  assert (H : c = 5 \/ c = 6 \/ c = 7 \/ c = 8 \/ c = 9 \/ c = 10 \/ c = 11
              \/ c = 12 \/ c = 13 \/ c = 14 \/ c = 15 \/ c = 16 \/ c = 17
              \/ c = 18 \/ c = 19 \/ c = 20 \/ c = 21 \/ c = 22 \/ c = 23
              \/ c = 24 \/ c = 25 \/ c = 26 \/ c = 27 \/ c = 28 \/ c = 29
              \/ c = 30 \/ c = 31 \/ c = 32 \/ c = 33 \/ c = 34 \/ c = 35
              \/ c = 36 \/ c = 37 \/ c = 38 \/ c = 39 \/ c = 40) by lia;
  clear Hc;
  repeat (destruct H as [H | H]; [subst c | ]); [ .. | subst c].

(** The division by [100.0] never raises. *)
Lemma pct_of_ok (logo_pct : option Z) : exists p, pct_of logo_pct = Ok p.
Proof.
  unfold pct_of.
  pose proof (logo_percent_range logo_pct) as Hc.
  generalize dependent (logo_percent logo_pct). intros c Hc.
  each_percent c Hc; vm_compute; eexists; reflexivity.
Qed.

Section LogoPercent.

Context {image logo FS : Type} (L : Lib image logo FS).

Lemma paste_logo_percent fs pil_img path (a b : option Z) :
  logo_percent a = logo_percent b ->
  paste_logo L fs pil_img path a = paste_logo L fs pil_img path b.
Proof.
  intros Hab. unfold paste_logo.
  destruct (Image_open L fs path) as [lg | e]; [simpl | reflexivity].
  destruct (size L pil_img) as [qr_w qr_h].
  rewrite (target_width_percent qr_w a b Hab). reflexivity.
Qed.

Lemma _paste_logo_center_percent fs pil_img logo_path (a b : option Z) :
  logo_percent a = logo_percent b ->
  _paste_logo_center L fs pil_img logo_path a
  = _paste_logo_center L fs pil_img logo_path b.
Proof.
  intros Hab. unfold _paste_logo_center.
  destruct logo_path as [path |]; [| reflexivity].
  rewrite (paste_logo_percent fs pil_img path a b Hab). reflexivity.
Qed.

(** C3, amended.  Every non-zero [sizePercent] is used as
    [min(40, max(5, sizePercent))]: the percentage is that value, the
    division by [100.0] does not raise, and the overlay behaves as it
    does for the clamped value; below 5 it is 5, above 40 it is 40. *)
Theorem nonzero_percent_is_clamped (n : Z) :
  n <> 0 ->
  logo_percent (Some n) = spec_clamp n
  /\ (n < 5 -> logo_percent (Some n) = 5)
  /\ (40 < n -> logo_percent (Some n) = 40)
  /\ (exists p, pct_of (Some n) = Ok p)
  /\ (forall qr_w,
        target_width qr_w (Some n) = target_width qr_w (Some (spec_clamp n)))
  /\ (forall fs pil_img logo_path,
        _paste_logo_center L fs pil_img logo_path (Some n)
        = _paste_logo_center L fs pil_img logo_path (Some (spec_clamp n))).
Proof.
  intros Hn.
  pose proof (logo_percent_nonzero n Hn) as Hclamp.
  assert (Hsame : logo_percent (Some n) = logo_percent (Some (spec_clamp n))).
  { rewrite Hclamp. symmetry. apply logo_percent_fixed. unfold spec_clamp. lia. }
  split; [exact Hclamp|].
  split; [intros Hlt; rewrite Hclamp; unfold spec_clamp; lia|].
  split; [intros Hgt; rewrite Hclamp; unfold spec_clamp; lia|].
  split; [apply pct_of_ok|].
  split.
  - intros qr_w. apply target_width_percent, Hsame.
  - intros fs0 pil_img logo_path. apply _paste_logo_center_percent, Hsame.
Qed.


End LogoPercent.

Lemma nonzero_percent_is_clamped_witness :
  3 <> 0
  /\ logo_percent (Some 3) = 5
  /\ target_width 200 (Some 3) = target_width 200 (Some 5)
  /\ logo_percent (Some 55) = 40.
Proof.
  assert (H3 : 3 <> 0) by discriminate.
  assert (H55 : 55 <> 0) by discriminate.
  split; [exact H3|].
  split; [exact (proj1 (nonzero_percent_is_clamped Sample.full 3 H3))|].
  split.
  - exact (proj1 (proj2 (proj2 (proj2 (proj2
             (nonzero_percent_is_clamped Sample.full 3 H3))))) 200).
  - exact (proj1 (nonzero_percent_is_clamped Sample.full 55 H55)).
Defined.


(** C3 as stated fails at [sizePercent = 0]: the percentage used is 20,
    not the clamp minimum 5, and the width of the logo on a 200 pixel
    image is 40 pixels, not 10. *)
Lemma zero_percent_is_not_clamped :
  logo_percent (Some 0) <> spec_clamp 0
  /\ target_width 200 (Some 0) = Ok 40
  /\ target_width 200 (Some (spec_clamp 0)) = Ok 10.
Proof.
  split; [vm_compute; discriminate|].
  split; vm_compute; reflexivity.
Qed.

(** ** Binary64 rounding

    Facts about [SpecFloat]'s rounding that bound the result of
    [int(qr_w * pct)] and [int(logo.height * (target_w / logo.width))]:
    the number of digits of a mantissa, the right shift that rounding
    performs, the conversion of an int, the quotient of two ints, and
    the product of an int and a double truncated back to an int. *)

Lemma digits2_pos_size (p : positive) : digits2_pos p = Pos.size p.
Proof. induction p; simpl; congruence. Qed.

Lemma digits2_pos_log2 (p : positive) :
  Z.pos (digits2_pos p) = Z.log2 (Z.pos p) + 1.
Proof.
  rewrite digits2_pos_size.
  destruct p; simpl; rewrite ?Pos2Z.inj_succ; lia.
Qed.

Lemma digits2_pos_bounds (p : positive) :
  2 ^ (Z.pos (digits2_pos p) - 1) <= Z.pos p < 2 ^ Z.pos (digits2_pos p).
Proof.
  rewrite digits2_pos_log2.
  replace (Z.log2 (Z.pos p) + 1 - 1) with (Z.log2 (Z.pos p)) by lia.
  apply (Z.log2_spec (Z.pos p)). lia.
Qed.

Lemma digits2_pos_unique (p : positive) (d : Z) :
  2 ^ (d - 1) <= Z.pos p < 2 ^ d -> Z.pos (digits2_pos p) = d.
Proof.
  intros H. rewrite digits2_pos_log2.
  assert (0 < d).
  { destruct (Z_lt_le_dec 0 d); auto.
    assert (2 ^ d <= 1).
    { destruct (Z.eq_dec d 0) as [-> | ?]; [simpl; lia|].
      rewrite Z.pow_neg_r by lia. lia. }
    lia. }
  rewrite (Z.log2_unique (Z.pos p) (d - 1)); try lia.
  replace (Z.succ (d - 1)) with d by lia. exact H.
Qed.

Lemma shr_1_div2 (mrs : shr_record) :
  0 <= shr_m mrs -> shr_m (shr_1 mrs) = shr_m mrs / 2.
Proof.
  destruct mrs as [m r s]. cbn [shr_m]. intros Hm.
  destruct m as [| [p | p |] | p]; cbn [shr_1 shr_m]; try lia.
  all: try reflexivity.
  - rewrite Pos2Z.inj_xI. apply Z.div_unique with (r := 1); lia.
  - rewrite Pos2Z.inj_xO. apply Z.div_unique with (r := 0); lia.
Qed.

Lemma iter_pos_iter {A} (f : A -> A) (p : positive) (x : A) :
  SpecFloat.iter_pos f p x = Pos.iter f x p.
Proof.
  revert x. induction p as [p IH | p IH |]; intros x; simpl.
  - rewrite !IH, !Pos.iter_swap. reflexivity.
  - rewrite !IH. reflexivity.
  - reflexivity.
Qed.

Lemma iter_shr_1_div (p : positive) (mrs : shr_record) :
  0 <= shr_m mrs ->
  shr_m (SpecFloat.iter_pos shr_1 p mrs) = shr_m mrs / 2 ^ Z.pos p.
Proof.
  intros Hm. rewrite iter_pos_iter.
  induction p as [| p IH] using Pos.peano_ind.
  - simpl. apply shr_1_div2, Hm.
  - rewrite Pos.iter_succ, shr_1_div2.
    + rewrite IH, Pos2Z.inj_succ, Z.pow_succ_r by lia.
      rewrite Z.div_div by lia. f_equal. lia.
    + rewrite IH. apply Z.div_pos; lia.
Qed.

Lemma shr_nonneg (mrs : shr_record) (e k : Z) :
  0 <= k -> 0 <= shr_m mrs ->
  exists mrs', shr mrs e k = (mrs', e + k) /\ shr_m mrs' = shr_m mrs / 2 ^ k.
Proof.
  intros Hk Hm. destruct k as [| p | p]; try lia.
  - exists mrs. simpl. rewrite Z.add_0_r, Z.div_1_r. auto.
  - exists (SpecFloat.iter_pos shr_1 p mrs). split; [reflexivity|].
    apply iter_shr_1_div, Hm.
Qed.

Lemma shr_record_of_loc_m (m : Z) (l : location) :
  shr_m (shr_record_of_loc m l) = m.
Proof. destruct l as [| []]; reflexivity. Qed.

Lemma round_nearest_even_cases (m : Z) (l : location) :
  round_nearest_even m l = m \/ round_nearest_even m l = m + 1.
Proof.
  destruct l as [| []]; simpl; auto.
  destruct (Z.even m); auto.
Qed.

Lemma round_aux_canonical (m : positive) (e : Z) :
  Z.pos (digits2_pos m) = 53 ->
  -1074 <= e <= 971 ->
  binary_round_aux 53 1024 false (Z.pos m) e loc_Exact = S754_finite false m e.
Proof.
  intros Hd He.
  unfold binary_round_aux, shr_fexp, fexp, emin.
  cbn [Zdigits2 shr_record_of_loc]. rewrite Hd.
  replace (Z.max (53 + e - 53) (3 - 1024 - 53) - e) with 0 by lia.
  cbn [shr shr_m loc_of_shr_record round_nearest_even Zdigits2 shr_record_of_loc].
  rewrite Hd.
  replace (Z.max (53 + e - 53) (3 - 1024 - 53) - e) with 0 by lia.
  cbn [shr shr_m].
  replace (e <=? 1024 - 53) with true by (symmetry; apply Z.leb_le; lia).
  reflexivity.
Qed.

Lemma round_aux_shift (m : positive) (e d : Z) (l : location) :
  Z.pos (digits2_pos m) = d ->
  53 <= d ->
  -1074 <= e + (d - 53) < 971 ->
  exists mr m2 e2,
    (mr = Z.pos m / 2 ^ (d - 53) \/ mr = Z.pos m / 2 ^ (d - 53) + 1)
    /\ binary_round_aux 53 1024 false (Z.pos m) e l
       = S754_finite false m2 e2
    /\ 2 ^ 52 <= Z.pos m2 < 2 ^ 53
    /\ ((Z.pos m2 = mr /\ e2 = e + (d - 53))
        \/ (mr = 2 ^ 53 /\ Z.pos m2 = 2 ^ 52 /\ e2 = e + (d - 53) + 1)).
Proof.
  intros Hd Hlt He.
  pose proof (digits2_pos_bounds m) as Hb. rewrite Hd in Hb.
  set (k := d - 53) in *.
  assert (Hk : 0 <= k) by (unfold k; lia).
  set (m1 := Z.pos m / 2 ^ k).
  assert (Hm1 : 2 ^ 52 <= m1 < 2 ^ 53).
  { unfold m1.
    assert (Hpk : 0 < 2 ^ k) by (apply Z.pow_pos_nonneg; lia).
    assert (Hd1 : 2 ^ (d - 1) = 2 ^ 52 * 2 ^ k).
    { rewrite <- Z.pow_add_r by lia. f_equal. unfold k. lia. }
    assert (Hd2 : 2 ^ d = 2 ^ 53 * 2 ^ k).
    { rewrite <- Z.pow_add_r by lia. f_equal. unfold k. lia. }
    split.
    - apply Z.div_le_lower_bound; lia.
    - apply Z.div_lt_upper_bound; lia. }
  unfold binary_round_aux, shr_fexp, fexp, emin.
  cbn [Zdigits2]. rewrite Hd.
  replace (Z.max (d + e - 53) (3 - 1024 - 53) - e) with k by (unfold k; lia).
  destruct (shr_nonneg (shr_record_of_loc (Z.pos m) l) e k Hk) as (mrs & Hshr & Hmrs).
  { rewrite shr_record_of_loc_m. lia. }
  rewrite Hshr. rewrite shr_record_of_loc_m in Hmrs. fold m1 in Hmrs.
  rewrite Hmrs.
  set (mr := round_nearest_even m1 (loc_of_shr_record mrs)).
  assert (Hmr : mr = m1 \/ mr = m1 + 1) by apply round_nearest_even_cases.
  destruct (Z_lt_le_dec mr (2 ^ 53)) as [Hsmall | Hbig].
  - destruct mr as [| mrp |] eqn:Hmrp; try lia.
    assert (Hdig : Z.pos (digits2_pos mrp) = 53).
    { apply digits2_pos_unique. lia. }
    exists (Z.pos mrp), mrp, (e + k).
    split; [exact Hmr|]. split; [| split; [lia | left; split; reflexivity]].
    cbn [Zdigits2 shr_record_of_loc]. rewrite Hdig.
    replace (Z.max (53 + (e + k) - 53) (3 - 1024 - 53) - (e + k))
      with 0 by lia.
    cbn [shr shr_m].
    replace (e + k <=? 1024 - 53) with true
      by (symmetry; apply Z.leb_le; lia).
    reflexivity.
  - assert (Hmr53 : mr = 2 ^ 53) by lia.
    exists mr, (Z.to_pos (2 ^ 52)), (e + k + 1).
    split; [exact Hmr|].
    split; [| split; [vm_compute; split; [discriminate | reflexivity] |];
              right; split; [exact Hmr53 | split; reflexivity]].
    rewrite Hmr53.
    change (2 ^ 53) with (Z.pos (Z.to_pos (2 ^ 53))).
    cbn [Zdigits2 shr_record_of_loc].
    replace (Z.pos (digits2_pos (Z.to_pos (2 ^ 53)))) with 54
      by (vm_compute; reflexivity).
    replace (Z.max (54 + (e + k) - 53) (3 - 1024 - 53) - (e + k))
      with 1 by lia.
    cbn [shr SpecFloat.iter_pos].
    replace (shr_m (shr_1 {| shr_m := Z.pos (Z.to_pos (2 ^ 53));
                             shr_r := false; shr_s := false |}))
      with (Z.pos (Z.to_pos (2 ^ 52))) by (vm_compute; reflexivity).
    replace (e + k + 1 <=? 1024 - 53) with true
      by (symmetry; apply Z.leb_le; lia).
    reflexivity.
Qed.

Lemma iter_xO_mul (p n : positive) :
  Z.pos (Pos.iter xO p n) = Z.pos p * 2 ^ Z.pos n.
Proof.
  induction n as [| n IH] using Pos.peano_ind.
  - simpl. lia.
  - rewrite Pos.iter_succ, Pos2Z.inj_xO, IH, Pos2Z.inj_succ, Z.pow_succ_r by lia.
    lia.
Qed.

Lemma pow2_lt_inv (a b : Z) : 0 <= b -> 2 ^ a < 2 ^ b -> a < b.
Proof. intros Hb H. apply (Z.pow_lt_mono_r_iff 2); lia. Qed.

Lemma of_int_normal (w : Z) :
  1 <= w < 2 ^ 53 ->
  exists mw s,
    0 <= s <= 52
    /\ Z.pos mw = w * 2 ^ s
    /\ 2 ^ 52 <= Z.pos mw < 2 ^ 53
    /\ PyFloat.of_int w = Ok (S754_finite false mw (- s)).
Proof.
  intros Hw. destruct w as [| p |]; try lia.
  pose proof (digits2_pos_bounds p) as Hb.
  set (d := Z.pos (digits2_pos p)) in *.
  assert (Hd1 : 1 <= d) by (unfold d; lia).
  assert (Hd53 : d <= 53).
  { assert (d - 1 < 53); [| lia]. apply pow2_lt_inv; lia. }
  unfold PyFloat.of_int, binary_normalize, binary_round, shl_align, fexp, emin.
  fold d. unfold PyFloat.prec, PyFloat.emax.
  replace (Z.max (d + 0 - 53) (3 - 1024 - 53) - 0) with (d - 53) by lia.
  destruct (d - 53) as [| q | q] eqn:Hq; try lia.
  - exists p, 0.
    rewrite (round_aux_canonical p 0) by (fold d; lia).
    assert (d = 53) by lia. subst d.
    replace (Z.pos (digits2_pos p) - 1) with 52 in Hb by lia.
    rewrite H in Hb.
    repeat split; try lia. 
  - set (mz := Pos.iter xO p q).
    assert (Hmz : Z.pos mz = Z.pos p * 2 ^ Z.pos q) by apply iter_xO_mul.
    assert (Hs : Z.pos q = 53 - d) by lia.
    assert (Hpq : 0 < 2 ^ Z.pos q) by (apply Z.pow_pos_nonneg; lia).
    assert (H52 : 2 ^ 52 = 2 ^ (d - 1) * 2 ^ Z.pos q).
    { rewrite <- Z.pow_add_r by lia. f_equal. lia. }
    assert (H53 : 2 ^ 53 = 2 ^ d * 2 ^ Z.pos q).
    { rewrite <- Z.pow_add_r by lia. f_equal. lia. }
    assert (Hrange : 2 ^ 52 <= Z.pos mz < 2 ^ 53).
    { rewrite Hmz, H52, H53. split.
      - apply Z.mul_le_mono_nonneg_r; lia.
      - apply Z.mul_lt_mono_pos_r; lia. }
    exists mz, (Z.pos q).
    replace (Z.max (d + 0 - 53) (3 - 1024 - 53)) with (- Z.pos q) by lia.
    rewrite (round_aux_canonical mz (- Z.pos q));
      [| apply digits2_pos_unique; lia | lia].
    repeat split; try lia.
Qed.

Lemma to_int_finite_neg (m : positive) (e : Z) :
  e <= 0 -> PyFloat.to_int (S754_finite false m e) = Ok (Z.pos m / 2 ^ (- e)).
Proof.
  intros He. unfold PyFloat.to_int.
  destruct (Z.leb_spec 0 e) as [H0 | H0].
  - assert (e = 0) by lia. subst e. simpl. f_equal. rewrite Z.div_1_r. lia.
  - reflexivity.
Qed.

Lemma pow2_split (a b : Z) : 0 <= a -> 0 <= b -> 2 ^ (a + b) = 2 ^ a * 2 ^ b.
Proof. intros. apply Z.pow_add_r; lia. Qed.

(** The product of an int of at most [B] bits and a double below one,
    truncated: the quotient [w * mp / 2^a] rounded down, or the next
    integer when the product is within [2^(B+1) / 2^a] of it. *)
Lemma mul_trunc (w : Z) (mp : positive) (a B : Z) :
  0 <= B <= 52 ->
  1 <= w <= 2 ^ B ->
  2 ^ 52 <= Z.pos mp < 2 ^ 53 ->
  B + 2 <= a <= 1000 ->
  exists x t0,
    PyFloat.int_mul_float w (S754_finite false mp (- a)) = Ok x
    /\ PyFloat.to_int x = Ok t0
    /\ w * Z.pos mp / 2 ^ a <= t0
    /\ t0 * 2 ^ a <= w * Z.pos mp + 2 ^ (B + 1).
Proof.
  intros HB Hw Hmp Ha.
  assert (HwB : w < 2 ^ 53).
  { apply Z.le_lt_trans with (2 ^ B); [lia|]. apply Z.pow_lt_mono_r; lia. }
  destruct (of_int_normal w) as (mw & s & Hs & Hmw & Hmwr & Hof); [lia|].
  assert (Hps : 0 < 2 ^ s) by (apply Z.pow_pos_nonneg; lia).
  assert (Hpa : 0 < 2 ^ a) by (apply Z.pow_pos_nonneg; lia).
  (* a small int is shifted left by many bits *)
  assert (HsB : 52 - B <= s).
  { assert (2 ^ 52 <= 2 ^ B * 2 ^ s).
    { rewrite Hmw in Hmwr. apply Z.le_trans with (w * 2 ^ s); [lia|].
      apply Z.mul_le_mono_nonneg_r; lia. }
    rewrite <- pow2_split in H by lia.
    assert (52 < B + s + 1); [| lia].
    apply pow2_lt_inv; [lia|].
    apply Z.le_lt_trans with (2 ^ (B + s)); [exact H|].
    apply Z.pow_lt_mono_r; lia. }
  unfold PyFloat.int_mul_float. rewrite Hof. cbn [bind].
  unfold PyFloat.mul, SFmul. cbn [xorb].
  set (m := (mw * mp)%positive).
  assert (Hm : Z.pos m = Z.pos mw * Z.pos mp) by reflexivity.
  assert (Hmr : 2 ^ 104 <= Z.pos m < 2 ^ 106).
  { rewrite Hm. change (2 ^ 104) with (2 ^ 52 * 2 ^ 52).
    change (2 ^ 106) with (2 ^ 53 * 2 ^ 53). split.
    - apply Z.mul_le_mono_nonneg; lia.
    - apply Z.mul_lt_mono_nonneg; lia. }
  set (d := Z.pos (digits2_pos m)).
  pose proof (digits2_pos_bounds m) as Hdb. fold d in Hdb.
  assert (Hd : 105 <= d <= 106).
  { split.
    - assert (104 < d); [| lia]. apply pow2_lt_inv; lia.
    - assert (d - 1 < 106); [| lia]. apply pow2_lt_inv; lia. }
  destruct (round_aux_shift m (- s + - a) d loc_Exact eq_refl) as
    (mr & m2 & e2 & Hmrc & Hround & _ & Hres); [lia | lia |].
  unfold PyFloat.prec, PyFloat.emax. rewrite Hround.
  set (k := d - 53) in *.
  set (q := s + a - k).
  assert (Hq : 1 <= q) by (unfold q, k; lia).
  assert (Hpk : 0 < 2 ^ k) by (apply Z.pow_pos_nonneg; unfold k; lia).
  assert (Hpq : 0 < 2 ^ q) by (apply Z.pow_pos_nonneg; lia).
  assert (Hkq : 2 ^ k * 2 ^ q = 2 ^ s * 2 ^ a).
  { rewrite <- !pow2_split by (unfold k; lia). f_equal. unfold q. lia. }
  (* the truncated product is [mr / 2^q] *)
  assert (Ht0 : PyFloat.to_int (S754_finite false m2 e2) = Ok (mr / 2 ^ q)).
  { destruct Hres as [[Hm2 He2] | (Hmr53 & Hm2 & He2)].
    - rewrite to_int_finite_neg by (unfold k in *; lia).
      rewrite Hm2. do 2 f_equal. f_equal. unfold q. lia.
    - rewrite to_int_finite_neg by (unfold k in *; lia).
      rewrite Hm2, Hmr53. f_equal.
      replace (- e2) with (q - 1) by (unfold q; lia).
      change (2 ^ 53) with (2 ^ 52 * 2).
      replace (2 ^ q) with (2 ^ (q - 1) * 2).
      2:{ rewrite (Z.mul_comm (2 ^ (q - 1)) 2), <- Z.pow_succ_r by lia.
          f_equal. lia. }
      assert (0 < 2 ^ (q - 1)) by (apply Z.pow_pos_nonneg; lia).
      rewrite Z.div_mul_cancel_r by lia. reflexivity. }
  exists (S754_finite false m2 e2), (mr / 2 ^ q).
  split; [reflexivity|]. split; [exact Ht0|].
  set (m1 := Z.pos m / 2 ^ k) in *.
  assert (Hm1 : m1 * 2 ^ k <= Z.pos m).
  { unfold m1. rewrite Z.mul_comm. apply Z.mul_div_le. lia. }
  assert (Hlow : w * Z.pos mp / 2 ^ a = m1 / 2 ^ q).
  { unfold m1. rewrite Z.div_div by lia. rewrite Hkq, Hm, Hmw.
    replace (w * 2 ^ s * Z.pos mp) with (w * Z.pos mp * 2 ^ s) by ring.
    rewrite (Z.mul_comm (2 ^ s) (2 ^ a)).
    rewrite Z.div_mul_cancel_r by lia. reflexivity. }
  split.
  - rewrite Hlow. apply Z.div_le_mono; lia.
  - assert (Hup : mr / 2 ^ q * 2 ^ q <= mr).
    { rewrite Z.mul_comm. apply Z.mul_div_le. lia. }
    assert (H1 : mr / 2 ^ q * 2 ^ q * 2 ^ k <= Z.pos m + 2 ^ k).
    { apply Z.le_trans with ((m1 + 1) * 2 ^ k); [| lia].
      apply Z.mul_le_mono_nonneg_r; lia. }
    assert (H2 : 2 ^ k <= 2 ^ (B + 1) * 2 ^ s).
    { rewrite <- pow2_split by lia. apply Z.pow_le_mono_r; unfold k; lia. }
    assert (H3 : mr / 2 ^ q * 2 ^ a * 2 ^ s
                 <= (w * Z.pos mp + 2 ^ (B + 1)) * 2 ^ s).
    { replace (mr / 2 ^ q * 2 ^ a * 2 ^ s)
        with (mr / 2 ^ q * (2 ^ s * 2 ^ a)) by ring.
      rewrite <- Hkq.
      replace (mr / 2 ^ q * (2 ^ k * 2 ^ q))
        with (mr / 2 ^ q * 2 ^ q * 2 ^ k) by ring.
      rewrite Hm, Hmw in H1.
      replace ((w * Z.pos mp + 2 ^ (B + 1)) * 2 ^ s)
        with (w * 2 ^ s * Z.pos mp + 2 ^ (B + 1) * 2 ^ s) by ring.
      lia. }
    apply Z.mul_le_mono_pos_r in H3; [exact H3 | lia].
Qed.

Lemma pct_of_value (c : Z) :
  5 <= c <= 40 ->
  exists mp e,
    pct_of (Some c) = Ok (S754_finite false mp e)
    /\ -60 <= e <= -54
    /\ 2 ^ 52 <= Z.pos mp < 2 ^ 53
    /\ -50 <= 100 * Z.pos mp - c * 2 ^ (- e) <= 50.
Proof.
  intros Hc.
  each_percent c Hc;
    (do 2 eexists; split; [vm_compute; reflexivity |]; simpl; lia).
Qed.

Lemma quotient_bounds (w c P A t0 : Z) :
  0 <= w <= 2 ^ 32 ->
  5 <= c <= 40 ->
  2 ^ 54 <= A ->
  -50 <= 100 * P - c * A <= 50 ->
  w * P / A <= t0 ->
  t0 * A <= w * P + 2 ^ 33 ->
  w * c / 100 - 1 <= t0 <= w * c / 100.
Proof.
  intros Hw Hc HA HP Hlow Hup.
  set (F := w * c / 100).
  assert (HF : 100 * F <= w * c < 100 * F + 100).
  { unfold F. pose proof (Z.div_mod (w * c) 100 ltac:(lia)).
    pose proof (Z.mod_pos_bound (w * c) 100 ltac:(lia)). lia. }
  assert (HwP : w * c * A - 50 * w <= 100 * (w * P) <= w * c * A + 50 * w).
  { split; nia. }
  assert (HFA : 100 * F * A <= w * c * A <= (100 * F + 99) * A).
  { split; apply Z.mul_le_mono_nonneg_r; lia. }
  split.
  - apply Z.le_trans with (w * P / A); [| exact Hlow].
    apply Z.div_le_lower_bound; [lia|]. nia.
  - destruct (Z_le_gt_dec t0 F) as [Hle | Hgt]; [exact Hle|].
    exfalso.
    assert ((F + 1) * A <= t0 * A) by (apply Z.mul_le_mono_nonneg_r; lia).
    nia.
Qed.

(** For every image up to 2^32 pixels wide the width of the logo is
    computed without an exception and is the exact quotient
    [qr_w * percent / 100] rounded down, or one pixel less, and at
    least one pixel. *)
Lemma target_width_near_quotient (qr_w : Z) (logo_pct : option Z) :
  0 <= qr_w <= 2 ^ 32 ->
  exists t,
    target_width qr_w logo_pct = Ok t
    /\ Z.max 1 (qr_w * logo_percent logo_pct / 100) - 1 <= t
       <= Z.max 1 (qr_w * logo_percent logo_pct / 100).
Proof.
  intros Hw.
  rewrite (target_width_percent qr_w logo_pct (Some (logo_percent logo_pct)))
    by (symmetry; apply logo_percent_idem).
  pose proof (logo_percent_range logo_pct) as Hc.
  set (c := logo_percent logo_pct) in *.
  destruct (pct_of_value c Hc) as (mp & e & Hpct & He & Hmp & Herr).
  unfold target_width. rewrite Hpct. cbn [bind].
  destruct (Z.eq_dec qr_w 0) as [-> | Hw0].
  - exists 1. split; [reflexivity|].
    rewrite Z.mul_0_l. change (0 / 100) with 0. lia.
  - replace e with (- (- e)) by lia.
    destruct (mul_trunc qr_w mp (- e) 32) as (x & t0 & Hx & Ht0 & Hlow & Hup);
      [lia | lia | lia | lia |].
    rewrite Hx. cbn [bind]. rewrite Ht0. cbn [bind].
    exists (Z.max 1 t0). split; [reflexivity|].
    assert (Hq : qr_w * c / 100 - 1 <= t0 <= qr_w * c / 100).
    { apply (quotient_bounds qr_w c (Z.pos mp) (2 ^ (- e)) t0); try lia.
      apply Z.pow_le_mono_r; lia. }
    lia.
Qed.

(** The quotient of two ints of at most 17 bits, as a double: a mantissa
    of 53 bits within one unit of [a * 2^n / b]. *)
Lemma int_true_div_value (a b : Z) :
  1 <= a <= 2 ^ 16 -> 1 <= b <= 2 ^ 16 ->
  exists mr n,
    PyFloat.int_true_div a b = Ok (S754_finite false mr (- n))
    /\ 35 <= n <= 69
    /\ 2 ^ 52 <= Z.pos mr < 2 ^ 53
    /\ (Z.pos mr - 1) * b <= a * 2 ^ n < (Z.pos mr + 1) * b.
Proof.
  intros Ha Hb.
  destruct a as [| pa |]; try lia. destruct b as [| pb |]; try lia.
  unfold PyFloat.int_true_div. cbn [Z.eqb PyFloat.exact].
  unfold PyFloat.div, SFdiv, SFdiv_core_binary, fexp, emin.
  unfold PyFloat.prec, PyFloat.emax. cbn [Zdigits2 xorb].
  pose proof (digits2_pos_bounds pa) as Hda.
  pose proof (digits2_pos_bounds pb) as Hdb.
  set (d1 := Z.pos (digits2_pos pa)) in *.
  set (d2 := Z.pos (digits2_pos pb)) in *.
  assert (Hd1 : 1 <= d1 <= 17).
  { split; [unfold d1; lia|]. assert (d1 - 1 < 17); [| lia].
    apply pow2_lt_inv; lia. }
  assert (Hd2 : 1 <= d2 <= 17).
  { split; [unfold d2; lia|]. assert (d2 - 1 < 17); [| lia].
    apply pow2_lt_inv; lia. }
  set (s := 53 + d2 - d1).
  replace (Z.min (Z.max (d1 + 0 - (d2 + 0) - 53) (3 - 1024 - 53)) (0 - 0))
    with (- s) by (unfold s; lia).
  replace (0 - 0 - - s) with s by lia.
  assert (Hs : 37 <= s <= 69) by (unfold s; lia).
  destruct s as [| ps |] eqn:Hps; try lia.
  rewrite Z.shiftl_mul_pow2 by lia.
  rewrite <- Hps in *.
  assert (Hpow : 0 < 2 ^ s) by (apply Z.pow_pos_nonneg; lia).
  pose proof (Z.div_eucl_eq (Z.pos pa * 2 ^ s) (Z.pos pb) ltac:(lia)) as Heq.
  pose proof (Z.mod_pos_bound (Z.pos pa * 2 ^ s) (Z.pos pb) ltac:(lia)) as Hr.
  unfold Z.modulo in Hr.
  destruct (Z.div_eucl (Z.pos pa * 2 ^ s) (Z.pos pb)) as [q r].
  (* the quotient has 53 or 54 bits *)
  assert (Hlo : 2 ^ 52 * 2 ^ d2 <= Z.pos pa * 2 ^ s).
  { replace (2 ^ 52 * 2 ^ d2) with (2 ^ (d1 - 1) * 2 ^ s).
    - apply Z.mul_le_mono_nonneg_r; lia.
    - rewrite <- !Z.pow_add_r by lia. f_equal. unfold s. lia. }
  assert (Hhi : Z.pos pa * 2 ^ s < 2 ^ 54 * 2 ^ (d2 - 1)).
  { replace (2 ^ 54 * 2 ^ (d2 - 1)) with (2 ^ d1 * 2 ^ s).
    - apply Z.mul_lt_mono_pos_r; lia.
    - rewrite <- !Z.pow_add_r by lia. f_equal. unfold s. lia. }
  assert (Hq : 2 ^ 52 <= q < 2 ^ 54) by nia.
  destruct q as [| pq |]; try lia.
  set (dq := Z.pos (digits2_pos pq)).
  pose proof (digits2_pos_bounds pq) as Hdq. fold dq in Hdq.
  assert (Hdq' : 53 <= dq <= 54).
  { split.
    - assert (52 < dq); [| lia]. apply pow2_lt_inv; lia.
    - assert (dq - 1 < 54); [| lia]. apply pow2_lt_inv; lia. }
  destruct (round_aux_shift pq (- s) dq (new_location (Z.pos pb) r) eq_refl)
    as (mr & m2 & e2 & Hmr & Hround & Hm2r & Hres); [lia | lia |].
  rewrite Hround.
  set (k := dq - 53) in *.
  assert (Hk : k = 0 \/ k = 1) by (unfold k; lia).
  assert (Hm1 : Z.pos pq / 2 ^ k * 2 ^ k <= Z.pos pq
                < (Z.pos pq / 2 ^ k + 1) * 2 ^ k).
  { destruct Hk as [-> | ->]; change (2 ^ 0) with 1; change (2 ^ 1) with 2.
    - rewrite Z.div_1_r. lia.
    - pose proof (Z.div_mod (Z.pos pq) 2 ltac:(lia)).
      pose proof (Z.mod_pos_bound (Z.pos pq) 2 ltac:(lia)). lia. }
  exists m2, (- e2).
  replace (- - e2) with e2 by lia.
  split; [reflexivity|].
  assert (Hpk : 2 ^ s = 2 ^ (s - k) * 2 ^ k).
  { rewrite <- Z.pow_add_r by lia. f_equal. lia. }
  assert (HK : 0 < 2 ^ k) by (apply Z.pow_pos_nonneg; lia).
  (* [a * 2^(s-k) / b] lies between the shifted quotient and its successor *)
  set (m1 := Z.pos pq / 2 ^ k) in *.
  assert (Hx : m1 * Z.pos pb <= Z.pos pa * 2 ^ (s - k) < (m1 + 1) * Z.pos pb).
  { rewrite Hpk in Heq.
    assert (H1 : m1 * 2 ^ k * Z.pos pb <= Z.pos pq * Z.pos pb)
      by (apply Z.mul_le_mono_nonneg_r; lia).
    assert (H2 : (Z.pos pq + 1) * Z.pos pb <= (m1 + 1) * 2 ^ k * Z.pos pb)
      by (apply Z.mul_le_mono_nonneg_r; lia).
    split.
    - apply (Z.mul_le_mono_pos_r _ _ (2 ^ k)); lia.
    - apply (Z.mul_lt_mono_pos_r (2 ^ k)); lia. }
  destruct Hres as [[Hm2 He2] | (Hmr53 & Hm2 & He2)].
  - split; [lia|]. split; [lia|].
    replace (- e2) with (s - k) by lia. rewrite Hm2.
    destruct Hmr as [-> | ->]; lia.
  - split; [lia|]. split; [lia|].
    replace (- e2) with (s - k - 1) by lia. rewrite Hm2.
    assert (Hpk' : 2 ^ (s - k) = 2 ^ (s - k - 1) * 2).
    { rewrite (Z.mul_comm _ 2), <- Z.pow_succ_r by lia. f_equal. lia. }
    rewrite Hpk' in Hx.
    assert (Hm1v : m1 = 2 ^ 53 - 1).
    { assert (m1 < 2 ^ 53); [| lia].
      unfold m1. apply Z.div_lt_upper_bound; [lia|].
      destruct Hk as [Hk | Hk]; rewrite Hk in *.
      - change (2 ^ 0) with 1. assert (dq = 53) by (unfold k in Hk; lia). 
        replace dq with 53 in Hdq by lia. lia.
      - change (2 ^ 1) with 2. assert (dq = 54) by (unfold k in Hk; lia).
        replace dq with 54 in Hdq by lia.
        change (2 ^ 54) with (2 ^ 53 * 2) in Hdq. lia. }
    rewrite Hm1v in Hx.
    change (2 ^ 53 - 1) with 9007199254740991 in Hx.
    change (2 ^ 53 - 1 + 1) with 9007199254740992 in Hx.
    change (2 ^ 52) with 4503599627370496.
    lia.
Qed.

Lemma aspect_bounds (lh a b P A t0 : Z) :
  0 <= lh <= 2 ^ 16 ->
  1 <= a ->
  1 <= b <= 2 ^ 16 ->
  2 ^ 35 <= A ->
  (P - 1) * b <= a * A < (P + 1) * b ->
  lh * P / A <= t0 ->
  t0 * A <= lh * P + 2 ^ 17 ->
  lh * a / b - 1 <= t0 <= lh * a / b.
Proof.
  intros Hlh Ha Hb HA HP Hlow Hup.
  set (H := lh * a / b).
  assert (HH : H * b <= lh * a < H * b + b).
  { unfold H. pose proof (Z.div_mod (lh * a) b ltac:(lia)).
    pose proof (Z.mod_pos_bound (lh * a) b ltac:(lia)). lia. }
  assert (H1 : lh * (a * A) <= lh * ((P + 1) * b))
    by (apply Z.mul_le_mono_nonneg_l; lia).
  assert (H2 : H * b * A <= lh * a * A)
    by (apply Z.mul_le_mono_nonneg_r; lia).
  assert (H3 : lh * b <= A * b)
    by (apply Z.mul_le_mono_nonneg_r; lia).
  assert (H5 : lh * ((P - 1) * b) <= lh * (a * A))
    by (apply Z.mul_le_mono_nonneg_l; lia).
  assert (H6 : lh * a * A <= (H * b + b - 1) * A)
    by (apply Z.mul_le_mono_nonneg_r; lia).
  assert (H7 : lh * b <= 2 ^ 16 * 2 ^ 16)
    by (apply Z.mul_le_mono_nonneg; lia).
  split.
  - apply Z.le_trans with (lh * P / A); [| exact Hlow].
    apply Z.div_le_lower_bound; [lia|].
    apply (Z.mul_le_mono_pos_r _ _ b); lia.
  - destruct (Z_le_gt_dec t0 H) as [Hle | Hgt]; [exact Hle|].
    exfalso.
    assert (H8 : (H + 1) * A <= t0 * A)
      by (apply Z.mul_le_mono_nonneg_r; lia).
    assert (H4 : (H + 1) * A * b <= (lh * P + 2 ^ 17) * b)
      by (apply Z.mul_le_mono_nonneg_r; lia).
    change (2 ^ 35) with 34359738368 in HA.
    change (2 ^ 16) with 65536 in *.
    change (2 ^ 17) with 131072 in *.
    lia.
Qed.

(** For a logo and a target width of at most 65536 pixels the height
    of the logo is computed without an exception and is the exact
    quotient [logo_h * target_w / logo_w] rounded down, or one pixel
    less, and at least one pixel. *)
Lemma target_height_near_ratio (logo_w logo_h target_w : Z) :
  1 <= logo_w <= 2 ^ 16 ->
  0 <= logo_h <= 2 ^ 16 ->
  1 <= target_w <= 2 ^ 16 ->
  exists t,
    target_height logo_w logo_h target_w = Ok t
    /\ Z.max 1 (logo_h * target_w / logo_w) - 1 <= t
       <= Z.max 1 (logo_h * target_w / logo_w).
Proof.
  intros Hlw Hlh Htw.
  destruct (int_true_div_value target_w logo_w Htw Hlw)
    as (mr & n & Hdiv & Hn & Hmr & Hval).
  unfold target_height. rewrite Hdiv. cbn [bind].
  destruct (Z.eq_dec logo_h 0) as [-> | Hh0].
  - exists 1. split; [reflexivity|].
    rewrite Z.mul_0_l. rewrite Z.div_0_l by lia. lia.
  - destruct (mul_trunc logo_h mr n 16) as (x & t0 & Hx & Ht0 & Hlow & Hup);
      [lia | lia | lia | lia |].
    rewrite Hx. cbn [bind]. rewrite Ht0. cbn [bind].
    exists (Z.max 1 t0). split; [reflexivity|].
    assert (Hq : logo_h * target_w / logo_w - 1 <= t0
                 <= logo_h * target_w / logo_w).
    { apply (aspect_bounds logo_h target_w logo_w (Z.pos mr) (2 ^ n) t0);
        try lia.
      apply Z.pow_le_mono_r; lia. }
    lia.
Qed.

(** ** The logo overlay *)

Lemma target_width_positive (qr_w : Z) (logo_pct : option Z) (t : Z) :
  target_width qr_w logo_pct = Ok t -> 1 <= t.
Proof.
  unfold target_width.
  destruct (pct_of logo_pct) as [p | e]; [simpl | discriminate].
  destruct (PyFloat.int_mul_float qr_w p) as [x | e]; [simpl | discriminate].
  destruct (PyFloat.to_int x) as [n | e]; [simpl | discriminate].
  intros [= <-]. lia.
Qed.

Lemma target_height_positive (logo_w logo_h target_w t : Z) :
  target_height logo_w logo_h target_w = Ok t -> 1 <= t.
Proof.
  unfold target_height.
  destruct (PyFloat.int_true_div target_w logo_w) as [r | e]; [simpl | discriminate].
  destruct (PyFloat.int_mul_float logo_h r) as [x | e]; [simpl | discriminate].
  destruct (PyFloat.to_int x) as [n | e]; [simpl | discriminate].
  intros [= <-]. lia.
Qed.

(** A logo whose width is zero makes the division raise. *)
Lemma target_height_zero_width (logo_h target_w : Z) :
  target_height 0 logo_h target_w = Raise ZeroDivisionError.
Proof. reflexivity. Qed.

(** Floor division by two puts the logo in the middle, the odd pixel on
    the right and at the bottom. *)
Lemma center_pos_floor (qr_w qr_h target_w target_h x y : Z) :
  center_pos qr_w qr_h target_w target_h = (x, y) ->
  2 * x <= qr_w - target_w <= 2 * x + 1
  /\ 2 * y <= qr_h - target_h <= 2 * y + 1.
Proof.
  unfold center_pos. intros [= <- <-].
  pose proof (Z.div_mod (qr_w - target_w) 2 ltac:(lia)).
  pose proof (Z.mod_pos_bound (qr_w - target_w) 2 ltac:(lia)).
  pose proof (Z.div_mod (qr_h - target_h) 2 ltac:(lia)).
  pose proof (Z.mod_pos_bound (qr_h - target_h) 2 ltac:(lia)).
  lia.
Qed.

Section LogoCompositor.

Context {image logo FS : Type} (L : Lib image logo FS).

Lemma _paste_logo_center_guard fs pil_img path logo_pct :
  truthy path = true ->
  isfile L fs path = true ->
  import_PIL L = Ok tt ->
  _paste_logo_center L fs pil_img (Some path) logo_pct
  = match paste_logo L fs pil_img path logo_pct with
    | Ok img => img
    | Raise _ => pil_img
    end.
Proof.
  intros Ht Hf Hi. unfold _paste_logo_center.
  rewrite Ht, Hf, Hi. reflexivity.
Qed.

Lemma _paste_logo_center_raise fs pil_img path logo_pct e :
  paste_logo L fs pil_img path logo_pct = Raise e ->
  _paste_logo_center L fs pil_img (Some path) logo_pct = pil_img.
Proof.
  intros He. unfold _paste_logo_center. rewrite He.
  destruct (negb (truthy path) || negb (isfile L fs path)); [reflexivity|].
  destruct (import_PIL L); reflexivity.
Qed.

Lemma _paste_logo_center_absent fs pil_img logo_path logo_pct :
  truthy_opt logo_path = false ->
  _paste_logo_center L fs pil_img logo_path logo_pct = pil_img.
Proof.
  intros Habs. destruct logo_path as [path |]; [| reflexivity].
  simpl in Habs. unfold _paste_logo_center. rewrite Habs. reflexivity.
Qed.

Lemma _paste_logo_center_not_a_file fs pil_img path logo_pct :
  isfile L fs path = false ->
  _paste_logo_center L fs pil_img (Some path) logo_pct = pil_img.
Proof.
  intros Hfile. unfold _paste_logo_center.
  rewrite Hfile, orb_true_r. reflexivity.
Qed.

(** C4.  Whenever the overlay fails (no logo path, a path that is not a
    file, Pillow missing, a logo that cannot be decoded, or a failure
    while sizing, resizing or pasting it), [_paste_logo_center] returns
    the image it was given and raises nothing. *)
Theorem overlay_failure_returns_input fs pil_img logo_path logo_pct :
  overlay_failure L fs pil_img logo_path logo_pct ->
  _paste_logo_center L fs pil_img logo_path logo_pct = pil_img.
Proof.
  intros [ Habs
         | path -> Hfile
         | e Himp
         | path e -> Hopen
         | path lg e -> Hopen Hw
         | path lg tw e -> Hopen Hw Hh
         | path lg tw th e -> Hopen Hw Hh Hr
         | path lg lg' tw th e -> Hopen Hw Hh Hr Hp ].
  - apply _paste_logo_center_absent, Habs.
  - apply _paste_logo_center_not_a_file, Hfile.
  - unfold _paste_logo_center. rewrite Himp.
    destruct logo_path as [path |]; [| reflexivity].
    destruct (negb (truthy path) || negb (isfile L fs path)); reflexivity.
  - apply _paste_logo_center_raise with (e := e).
    unfold paste_logo. rewrite Hopen. reflexivity.
  - apply _paste_logo_center_raise with (e := e).
    unfold paste_logo. rewrite Hopen. simpl.
    destruct (size L pil_img) as [qr_w qr_h]. simpl in Hw.
    rewrite Hw. reflexivity.
  - apply _paste_logo_center_raise with (e := e).
    unfold paste_logo. rewrite Hopen. simpl.
    destruct (size L pil_img) as [qr_w qr_h]. simpl in Hw.
    rewrite Hw. simpl. rewrite Hh. reflexivity.
  - apply _paste_logo_center_raise with (e := e).
    unfold paste_logo. rewrite Hopen. simpl.
    destruct (size L pil_img) as [qr_w qr_h]. simpl in Hw.
    rewrite Hw. simpl. rewrite Hh. simpl. rewrite Hr. reflexivity.
  - apply _paste_logo_center_raise with (e := e).
    unfold paste_logo. rewrite Hopen. simpl.
    destruct (size L pil_img) as [qr_w qr_h]. simpl in Hw, Hp.
    rewrite Hw. simpl. rewrite Hh. simpl. rewrite Hr. simpl. exact Hp.
Qed.

(** C6, amended.  When a logo is composited, the logo was decoded, its
    target width is [target_width] of the image width: the product of
    the width and the clamped percentage over [100.0], in binary64
    arithmetic, truncated, at least 1; on an image up to 2^32 pixels
    wide that is [image.width * clamp / 100] rounded down, or one pixel
    less.  Its target height is [target_height]: the logo height times
    the ratio of the target width to the logo width, in binary64
    arithmetic, truncated, at least 1; for sizes up to 65536 pixels that
    is [logoHeight * targetWidth / logoWidth] rounded down, or one pixel
    less.  The logo was resized to that size and pasted at the floor of
    the centred position. *)
Theorem composited_logo_geometry fs pil_img path logo_pct out :
  truthy path = true ->
  isfile L fs path = true ->
  import_PIL L = Ok tt ->
  paste_logo L fs pil_img path logo_pct = Ok out ->
  _paste_logo_center L fs pil_img (Some path) logo_pct = out
  /\ exists lg target_w target_h lg' x y,
       let qr_w := fst (size L pil_img) in
       let qr_h := snd (size L pil_img) in
       let exact_w := Z.max 1 (qr_w * logo_percent logo_pct / 100) in
       let exact_h :=
         Z.max 1 (logo_height L lg * target_w / logo_width L lg) in
       Image_open L fs path = Ok lg
       /\ target_width qr_w (Some (logo_percent logo_pct)) = Ok target_w
       /\ 1 <= target_w
       /\ (0 <= qr_w <= 2 ^ 32 -> exact_w - 1 <= target_w <= exact_w)
       /\ target_height (logo_width L lg) (logo_height L lg) target_w
          = Ok target_h
       /\ 1 <= target_h
       /\ (1 <= logo_width L lg <= 2 ^ 16 ->
           0 <= logo_height L lg <= 2 ^ 16 ->
           target_w <= 2 ^ 16 ->
           exact_h - 1 <= target_h <= exact_h)
       /\ resize L lg (target_w, target_h) = Ok lg'
       /\ paste L pil_img lg' (x, y) = Ok out
       /\ 2 * x <= qr_w - target_w <= 2 * x + 1
       /\ 2 * y <= qr_h - target_h <= 2 * y + 1.
Proof.
  intros Ht Hf Hi Hout.
  split.
  { rewrite _paste_logo_center_guard by assumption. rewrite Hout. reflexivity. }
  unfold paste_logo in Hout.
  destruct (Image_open L fs path) as [lg | e]; [simpl in Hout | discriminate].
  destruct (size L pil_img) as [qr_w qr_h]. cbn [fst snd].
  destruct (target_width qr_w logo_pct) as [tw | e] eqn:Hw;
    [simpl in Hout | discriminate].
  destruct (target_height (logo_width L lg) (logo_height L lg) tw)
    as [th | e] eqn:Hh; [simpl in Hout | discriminate].
  destruct (resize L lg (tw, th)) as [lg' | e] eqn:Hr;
    [simpl in Hout | discriminate].
  destruct (center_pos qr_w qr_h tw th) as [x y] eqn:Hpos.
  destruct (center_pos_floor _ _ _ _ _ _ Hpos) as [Hx Hy].
  pose proof (target_width_positive _ _ _ Hw) as Htw1.
  exists lg, tw, th, lg', x, y. cbv zeta.
  split; [reflexivity|].
  split.
  { rewrite <- Hw. apply target_width_percent. apply logo_percent_idem. }
  split; [exact Htw1|].
  split.
  { intros Hrange.
    destruct (target_width_near_quotient qr_w logo_pct Hrange) as (t & Ht' & Hb).
    rewrite Hw in Ht'. injection Ht' as <-. exact Hb. }
  split; [exact Hh|].
  split; [exact (target_height_positive _ _ _ _ Hh)|].
  split.
  { intros Hlw Hlh Htw.
    destruct (target_height_near_ratio _ _ tw Hlw Hlh ltac:(lia)) as (t & Ht' & Hb).
    rewrite Hh in Ht'. injection Ht' as <-. exact Hb. }
  split; [exact Hr|].
  split; [exact Hout|].
  split; assumption.
Qed.

End LogoCompositor.

Lemma overlay_failure_returns_input_witness :
  overlay_failure Sample.full Sample.disk Sample.img100
    (Some "missing.png") (Some 20)
  /\ _paste_logo_center Sample.full Sample.disk Sample.img100
       (Some "missing.png") (Some 20) = Sample.img100.
Proof.
  assert (H : overlay_failure Sample.full Sample.disk Sample.img100
                (Some "missing.png") (Some 20)).
  { apply logo_not_a_file with (path := "missing.png"); vm_compute; reflexivity. }
  split; [exact H|].
  exact (overlay_failure_returns_input Sample.full Sample.disk Sample.img100
           (Some "missing.png") (Some 20) H).
Defined.

(** A file that is not an image is skipped the same way. *)
Example overlay_text_file :
  _paste_logo_center Sample.full Sample.disk Sample.img100
    (Some "notes.txt") (Some 20) = Sample.img100.
Proof. vm_compute. reflexivity. Qed.

Lemma composited_logo_geometry_witness :
  paste_logo Sample.full Sample.disk Sample.img100 "logo.png" (Some 29)
    = Ok Sample.img100_logo
  /\ _paste_logo_center Sample.full Sample.disk Sample.img100
       (Some "logo.png") (Some 29) = Sample.img100_logo.
Proof.
  assert (H : paste_logo Sample.full Sample.disk Sample.img100 "logo.png"
                (Some 29) = Ok Sample.img100_logo).
  { vm_compute. reflexivity. }
  split; [exact H|].
  refine (proj1 (composited_logo_geometry Sample.full Sample.disk Sample.img100
                   "logo.png" (Some 29) Sample.img100_logo _ _ _ H));
    vm_compute; reflexivity.
Defined.

(** C6 as stated fails: on an image 100 pixels wide at 29 percent the
    exact quotient is 29 pixels, the code computes [100 * 0.29] in
    floating point, which is 28.999999999999996, and pastes a logo 28
    pixels wide. *)
Lemma target_width_is_not_the_exact_quotient :
  spec_target_width 100 29 = 29
  /\ target_width 100 (Some 29) = Ok 28
  /\ target_width 100 (Some 29) <> Ok (spec_target_width 100 29)
  /\ size Sample.full Sample.img100 = (100, 100)
  /\ Sample.overlays
       (_paste_logo_center Sample.full Sample.disk Sample.img100
          (Some "logo.png") (Some 29))
     = [("logo.png", (28, 14), (36, 43))].
Proof.
  split; [reflexivity|].
  split; [vm_compute; reflexivity|].
  split; [vm_compute; discriminate|].
  split; vm_compute; reflexivity.
Qed.

(** ** The pipeline *)

Section ImagePipeline.

Context {image logo FS : Type} (L : Lib image logo FS).

Variables (url output_path : string) (box_size border : Z).
Variables (fill_color back_color style : string).

Lemma generate_qr_encoding_raises logo_path logo_size w e :
  new_QRCode L url box_size border = Raise e ->
  generate_qr L url output_path box_size border fill_color back_color style
    logo_path logo_size w = (w, Raise e).
Proof.
  intros He. unfold generate_qr, mbind, lift. rewrite He. reflexivity.
Qed.

Lemma generate_qr_render_raises logo_path logo_size w qr e :
  new_QRCode L url box_size border = Ok qr ->
  render L qr fill_color back_color style = Raise e ->
  generate_qr L url output_path box_size border fill_color back_color style
    logo_path logo_size w = (w, Raise e).
Proof.
  intros Hq He. unfold generate_qr, mbind, lift. rewrite Hq, He. reflexivity.
Qed.

(** Once the code is rendered, the image handed to [save] is the
    rendered raster with the logo overlaid, and the call ends with that
    one [save]. *)
Lemma generate_qr_composed logo_path logo_size w qr img :
  new_QRCode L url box_size border = Ok qr ->
  render L qr fill_color back_color style = Ok img ->
  let final := _paste_logo_center L (fs w) (as_pil L img) logo_path logo_size in
  generate_qr L url output_path box_size border fill_color back_color style
    logo_path logo_size w
  = ({| fs := fst (save L (fs w) final output_path);
        writes := writes w ++ [(output_path, final)] |},
     snd (save L (fs w) final output_path) ;;; Ok output_path).
Proof.
  intros Hq Hr final. subst final.
  unfold generate_qr, mbind, lift, ret, read_fs, save_image.
  rewrite Hq, Hr.
  destruct (truthy_opt logo_path) eqn:Hl.
  - destruct (save L (fs w) _ output_path) as [fs' [[] | e]]; reflexivity.
  - assert (Hskip : _paste_logo_center L (fs w) (as_pil L img) logo_path logo_size
                    = as_pil L img).
    { apply _paste_logo_center_absent, Hl. }
    rewrite Hskip.
    destruct (save L (fs w) _ output_path) as [fs' [[] | e]]; reflexivity.
Qed.

(** A logo path that names no file leaves the run as it is without a
    logo: same file, same result. *)
Lemma generate_qr_missing_logo path logo_size w :
  isfile L (fs w) path = false ->
  generate_qr L url output_path box_size border fill_color back_color style
    (Some path) logo_size w
  = generate_qr L url output_path box_size border fill_color back_color style
      None logo_size w.
Proof.
  intros Hf.
  destruct (new_QRCode L url box_size border) as [qr | e] eqn:Hq.
  - destruct (render L qr fill_color back_color style) as [img | e] eqn:Hr.
    + rewrite (generate_qr_composed (Some path) logo_size w qr img Hq Hr).
      rewrite (generate_qr_composed None logo_size w qr img Hq Hr).
      rewrite (_paste_logo_center_not_a_file L _ _ _ _ Hf).
      reflexivity.
    + rewrite !(generate_qr_render_raises _ _ _ qr e Hq Hr). reflexivity.
  - rewrite !(generate_qr_encoding_raises _ _ _ e Hq). reflexivity.
Qed.

(** A renderer that raises raises what the plain rendering raises. *)
Lemma render_raises_plain qr e :
  render L qr fill_color back_color style = Raise e ->
  make_image L qr fill_color back_color = Raise e.
Proof.
  unfold render, _make_styled_image.
  destruct (truthy style && negb (String.eqb style "square")); [| auto].
  destruct (styled_pathway L qr fill_color back_color style); [discriminate | auto].
Qed.

(** A renderer whose plain rendering succeeds returns an image. *)
Lemma render_plain_ok qr base :
  make_image L qr fill_color back_color = Ok base ->
  exists img, render L qr fill_color back_color style = Ok img.
Proof.
  intros Hbase.
  destruct (render L qr fill_color back_color style) as [img | e] eqn:Hr.
  - exists img. reflexivity.
  - rewrite (render_raises_plain qr e Hr) in Hbase. discriminate.
Qed.

(** C2, amended.  An exception that leaves [generate_qr] was raised by
    the encoding, by the plain rendering or by the write.  Whenever the
    encoding succeeds, the plain rendering of the code succeeds and the
    destination can be written, the call writes one image file and
    returns the path, whatever happens in the styled pathway and in the
    logo overlay. *)
Theorem generate_qr_failures logo_path logo_size w :
  (forall e,
     snd (generate_qr L url output_path box_size border fill_color back_color
            style logo_path logo_size w) = Raise e ->
     new_QRCode L url box_size border = Raise e
     \/ (exists qr, new_QRCode L url box_size border = Ok qr
                    /\ make_image L qr fill_color back_color = Raise e)
     \/ (exists final, snd (save L (fs w) final output_path) = Raise e))
  /\ (forall qr base,
        new_QRCode L url box_size border = Ok qr ->
        make_image L qr fill_color back_color = Ok base ->
        (forall final, snd (save L (fs w) final output_path) = Ok tt) ->
        exists final,
          generate_qr L url output_path box_size border fill_color back_color
            style logo_path logo_size w
          = ({| fs := fst (save L (fs w) final output_path);
                writes := writes w ++ [(output_path, final)] |},
             Ok output_path)).
Proof.
  split.
  - intros e He.
    destruct (new_QRCode L url box_size border) as [qr | e0] eqn:Hq.
    + destruct (render L qr fill_color back_color style) as [img | e1] eqn:Hr.
      * rewrite (generate_qr_composed logo_path logo_size w qr img Hq Hr) in He.
        simpl in He. right. right.
        exists (_paste_logo_center L (fs w) (as_pil L img) logo_path logo_size).
        destruct (snd (save L (fs w) _ output_path)) as [[] | e2];
          simpl in He; [discriminate | injection He as ->; reflexivity].
      * rewrite (generate_qr_render_raises logo_path logo_size w qr e1 Hq Hr) in He.
        simpl in He. injection He as ->.
        right. left. exists qr. split; [reflexivity|].
        apply render_raises_plain, Hr.
    + rewrite (generate_qr_encoding_raises logo_path logo_size w e0 Hq) in He.
      simpl in He. injection He as ->. left. reflexivity.
  - intros qr base Hq Hbase Hsave.
    destruct (render_plain_ok qr base Hbase) as [img Hr].
    exists (_paste_logo_center L (fs w) (as_pil L img) logo_path logo_size).
    rewrite (generate_qr_composed logo_path logo_size w qr img Hq Hr).
    rewrite Hsave. reflexivity.
Qed.

(** C8.  A call either stops in the encoding or the rendering stage,
    and then it leaves the file system and the log of writes as they
    were, or it performs exactly one write, of the composed image to the
    destination, as its last step: its result is the result of that
    write. *)
Theorem generate_qr_single_write logo_path logo_size w :
  (exists e,
     (new_QRCode L url box_size border = Raise e
      \/ exists qr, new_QRCode L url box_size border = Ok qr
                    /\ render L qr fill_color back_color style = Raise e)
     /\ generate_qr L url output_path box_size border fill_color back_color
          style logo_path logo_size w = (w, Raise e))
  \/ (exists final,
        generate_qr L url output_path box_size border fill_color back_color
          style logo_path logo_size w
        = ({| fs := fst (save L (fs w) final output_path);
              writes := writes w ++ [(output_path, final)] |},
           snd (save L (fs w) final output_path) ;;; Ok output_path)).
Proof.
  destruct (new_QRCode L url box_size border) as [qr | e] eqn:Hq.
  - destruct (render L qr fill_color back_color style) as [img | e] eqn:Hr.
    + right.
      exists (_paste_logo_center L (fs w) (as_pil L img) logo_path logo_size).
      apply (generate_qr_composed logo_path logo_size w qr img Hq Hr).
    + left. exists e. split.
      * right. exists qr. split; [reflexivity | exact Hr].
      * apply (generate_qr_render_raises logo_path logo_size w qr e Hq Hr).
  - left. exists e. split.
    + left. reflexivity.
    + apply (generate_qr_encoding_raises logo_path logo_size w e Hq).
Qed.

(** C9.  Two calls with the same request and no logo, in any two
    worlds, end alike.  Either both stop in the encoding or the
    rendering stage with the same exception and write nothing, or each
    performs exactly one write, of one and the same image to the same
    path: the rendering of the code that encodes the data, unwrapped by
    [as_pil].  That image does not depend on the files or on earlier
    calls; only the outcome of [save] does.  In particular the second of
    two calls in a row writes again the image the first one wrote. *)
Theorem generate_qr_deterministic logo_size w1 w2 :
  (exists e,
     (new_QRCode L url box_size border = Raise e
      \/ exists qr, new_QRCode L url box_size border = Ok qr
                    /\ render L qr fill_color back_color style = Raise e)
     /\ generate_qr L url output_path box_size border fill_color back_color
          style None logo_size w1 = (w1, Raise e)
     /\ generate_qr L url output_path box_size border fill_color back_color
          style None logo_size w2 = (w2, Raise e))
  \/ (exists qr img,
        new_QRCode L url box_size border = Ok qr
        /\ render L qr fill_color back_color style = Ok img
        /\ generate_qr L url output_path box_size border fill_color back_color
             style None logo_size w1
           = ({| fs := fst (save L (fs w1) (as_pil L img) output_path);
                 writes := writes w1 ++ [(output_path, as_pil L img)] |},
              snd (save L (fs w1) (as_pil L img) output_path) ;;; Ok output_path)
        /\ generate_qr L url output_path box_size border fill_color back_color
             style None logo_size w2
           = ({| fs := fst (save L (fs w2) (as_pil L img) output_path);
                 writes := writes w2 ++ [(output_path, as_pil L img)] |},
              snd (save L (fs w2) (as_pil L img) output_path) ;;; Ok output_path)
        /\ writes (fst (generate_qr L url output_path box_size border
                          fill_color back_color style None logo_size
                          (fst (generate_qr L url output_path box_size border
                                  fill_color back_color style None logo_size
                                  w1))))
           = writes w1 ++ [(output_path, as_pil L img);
                           (output_path, as_pil L img)]).
Proof.
  destruct (new_QRCode L url box_size border) as [qr | e] eqn:Hq.
  - destruct (render L qr fill_color back_color style) as [img | e] eqn:Hr.
    + right. exists qr, img.
      assert (Hrun : forall w,
                generate_qr L url output_path box_size border fill_color
                  back_color style None logo_size w
                = ({| fs := fst (save L (fs w) (as_pil L img) output_path);
                      writes := writes w ++ [(output_path, as_pil L img)] |},
                   snd (save L (fs w) (as_pil L img) output_path)
                   ;;; Ok output_path)).
      { intros w.
        rewrite (generate_qr_composed None logo_size w qr img Hq Hr).
        cbv zeta.
        rewrite (_paste_logo_center_absent L (fs w) (as_pil L img) None
                   logo_size eq_refl).
        reflexivity. }
      split; [reflexivity|]. split; [exact Hr|].
      split; [apply Hrun|]. split; [apply Hrun|].
      rewrite !Hrun. cbn [fst writes]. rewrite <- app_assoc. reflexivity.
    + left. exists e. split.
      * right. exists qr. split; [reflexivity | exact Hr].
      * split; apply (generate_qr_render_raises None logo_size _ qr e Hq Hr).
  - left. exists e. split.
    + left. reflexivity.
    + split; apply (generate_qr_encoding_raises None logo_size _ e Hq).
Qed.

End ImagePipeline.

(** ** Pixel dimensions *)

Section PixelSize.

Context {image logo FS : Type} (L : Lib image logo FS).

Hypothesis sizes : raster_sizes L.

Lemma new_QRCode_fields url bs bd qr :
  new_QRCode L url bs bd = Ok qr ->
  QRCode_init L bs bd = Ok tt
  /\ encode L ERROR_CORRECT_M url = Ok (modules qr)
  /\ error_correction qr = ERROR_CORRECT_M
  /\ version qr = None
  /\ box_size qr = bs
  /\ border qr = bd.
Proof.
  unfold new_QRCode.
  destruct (QRCode_init L bs bd) as [[] | e]; [simpl | discriminate].
  destruct (encode L ERROR_CORRECT_M url) as [m | e]; [simpl | discriminate].
  intros [= <-]. simpl. repeat split; reflexivity.
Qed.

Lemma new_QRCode_ok url bs bd m :
  QRCode_init L bs bd = Ok tt ->
  encode L ERROR_CORRECT_M url = Ok m ->
  new_QRCode L url bs bd
  = Ok {| version := None; error_correction := ERROR_CORRECT_M;
          box_size := bs; border := bd; modules := m |}.
Proof. intros Hi He. unfold new_QRCode. rewrite Hi, He. reflexivity. Qed.

Lemma render_size qr fill_color back_color style img :
  render L qr fill_color back_color style = Ok img ->
  size L img = (pixel_size qr, pixel_size qr).
Proof.
  unfold render, _make_styled_image, styled_pathway.
  destruct (truthy style && negb (String.eqb style "square")).
  - destruct (import_styledpil L) as [[] | e]; simpl.
    + destruct (make_image_styled L qr (drawer_cls style) fill_color back_color)
        as [styled | e] eqn:Hs; simpl.
      * intros [= <-]. exact (make_image_styled_size L sizes _ _ _ _ _ Hs).
      * apply (make_image_size L sizes).
    + apply (make_image_size L sizes).
  - apply (make_image_size L sizes).
Qed.

Lemma as_pil_size img : size L (as_pil L img) = size L img.
Proof.
  unfold as_pil. destruct (has_get_image L img) eqn:Hg; [| reflexivity].
  exact (get_image_size L sizes img Hg).
Qed.

Lemma paste_logo_size fs pil_img path logo_pct out :
  paste_logo L fs pil_img path logo_pct = Ok out ->
  size L out = size L pil_img.
Proof.
  unfold paste_logo.
  destruct (Image_open L fs path) as [lg | e]; [simpl | discriminate].
  destruct (size L pil_img) as [qr_w qr_h] eqn:Hsize.
  destruct (target_width qr_w logo_pct) as [tw | e]; [simpl | discriminate].
  destruct (target_height (logo_width L lg) (logo_height L lg) tw)
    as [th | e]; [simpl | discriminate].
  destruct (resize L lg (tw, th)) as [lg' | e]; [simpl | discriminate].
  intros Hp. rewrite (paste_size L sizes _ _ _ _ Hp). exact Hsize.
Qed.

Lemma _paste_logo_center_size fs pil_img logo_path logo_pct :
  size L (_paste_logo_center L fs pil_img logo_path logo_pct) = size L pil_img.
Proof.
  unfold _paste_logo_center.
  destruct logo_path as [path |]; [| reflexivity].
  destruct (negb (truthy path) || negb (isfile L fs path)); [reflexivity|].
  destruct (import_PIL L); [| reflexivity].
  destruct (paste_logo L fs pil_img path logo_pct) as [out | e] eqn:Hp;
    [| reflexivity].
  exact (paste_logo_size _ _ _ _ _ Hp).
Qed.

(** C5.  When the encoder returns a matrix for the data at level M, the
    plain rendering of the code succeeds and the destination can be
    written, [generate_qr] writes one image whose width and height are
    [(matrixSide + 2 * border) * boxSize] for the side of that matrix,
    whatever the style and the logo; the rasterisers are taken with
    their size contract. *)
Theorem generate_qr_pixel_size url output_path bs bd fill_color back_color
    style logo_path logo_size w m base :
  QRCode_init L bs bd = Ok tt ->
  encode L ERROR_CORRECT_M url = Ok m ->
  make_image L {| version := None; error_correction := ERROR_CORRECT_M;
                  box_size := bs; border := bd; modules := m |}
    fill_color back_color = Ok base ->
  (forall final, snd (save L (fs w) final output_path) = Ok tt) ->
  exists final,
    generate_qr L url output_path bs bd fill_color back_color style
      logo_path logo_size w
    = ({| fs := fst (save L (fs w) final output_path);
          writes := writes w ++ [(output_path, final)] |},
       Ok output_path)
    /\ size L final = ((Z.of_nat (length m) + 2 * bd) * bs,
                       (Z.of_nat (length m) + 2 * bd) * bs).
Proof.
  intros Hi He Hbase Hsave.
  pose proof (new_QRCode_ok url bs bd m Hi He) as Hq.
  set (qr := {| version := None; error_correction := ERROR_CORRECT_M;
                box_size := bs; border := bd; modules := m |}) in *.
  destruct (render_plain_ok L fill_color back_color style qr base Hbase)
    as [img Hr].
  exists (_paste_logo_center L (fs w) (as_pil L img) logo_path logo_size).
  split.
  - rewrite (generate_qr_composed L url output_path bs bd fill_color
               back_color style logo_path logo_size w qr img Hq Hr).
    rewrite Hsave. reflexivity.
  - rewrite _paste_logo_center_size, as_pil_size.
    rewrite (render_size qr fill_color back_color style img Hr).
    reflexivity.
Qed.

End PixelSize.

(** The sample library honours the size contract. *)
Lemma sample_raster_sizes (styled pillow : bool) :
  raster_sizes (Sample.lib styled pillow).
Proof.
  split.
  - intros qr f b img. simpl.
    destruct (Sample.known_color f && Sample.known_color b); [| discriminate].
    intros [= <-]. reflexivity.
  - intros qr d f b img. simpl. intros [= <-]. reflexivity.
  - intros img _. reflexivity.
  - intros img lg pos img'. simpl. intros [= <-]. reflexivity.
Defined.

Lemma generate_qr_pixel_size_witness :
  exists final,
    generate_qr Sample.full "example.com" "out.png" 10 4 "black" "white"
      "circle" (Some "logo.png") (Some 20) Sample.w0
    = ({| fs := fst (save Sample.full (fs Sample.w0) final "out.png");
          writes := writes Sample.w0 ++ [("out.png", final)] |},
       Ok "out.png")
    /\ size Sample.full final = (290, 290).
Proof.
  refine (generate_qr_pixel_size Sample.full (sample_raster_sizes true true)
            "example.com" "out.png" 10 4 "black" "white" "circle"
            (Some "logo.png") (Some 20) Sample.w0
            (repeat (repeat true 21) 21) _ _ _ _ _).
  - reflexivity.
  - reflexivity.
  - vm_compute. reflexivity.
  - intros final. reflexivity.
Defined.

Lemma generate_qr_failures_witness :
  exists final,
    generate_qr Sample.full "example.com" "out.png" 10 4 "black" "white"
      "rounded" (Some "notes.txt") (Some 20) Sample.w0
    = ({| fs := fst (save Sample.full (fs Sample.w0) final "out.png");
          writes := writes Sample.w0 ++ [("out.png", final)] |},
       Ok "out.png").
Proof.
  refine (proj2 (generate_qr_failures Sample.full "example.com" "out.png" 10 4
                   "black" "white" "rounded" (Some "notes.txt") (Some 20)
                   Sample.w0) _ _ _ _ _).
  - vm_compute. reflexivity.
  - vm_compute. reflexivity.
  - intros final. reflexivity.
Defined.

(** C2 as stated fails: the data is within capacity and the destination
    can be written, yet a colour that the rasteriser does not know makes
    the plain rendering raise and the exception reaches the caller; no
    file is written. *)
Lemma rendering_failure_reaches_caller :
  is_ok (new_QRCode Sample.full "example.com" 10 4) = true
  /\ (forall final, snd (save Sample.full Sample.disk final "out.png") = Ok tt)
  /\ generate_qr Sample.full "example.com" "out.png" 10 4 "notacolor" "white"
       "square" None (Some 20) Sample.w0
     = (Sample.w0, Raise ValueError).
Proof.
  split; [vm_compute; reflexivity|].
  split; [intros final; reflexivity|].
  vm_compute. reflexivity.
Qed.

(** The worlds of two calls in a row: the second call writes the image
    the first one wrote. *)
Example generate_qr_twice :
  let run := generate_qr Sample.full "example.com" "out.png" 10 4 "red" "white"
               "circle" None (Some 20) in
  writes (fst (run (fst (run Sample.w0))))
  = writes (fst (run Sample.w0)) ++ writes (fst (run Sample.w0)).
Proof. vm_compute. reflexivity. Qed.

(** Why C9 asks for no logo: with a logo the image depends on the
    files.  Called twice with the output path as the logo path, the
    first call finds no such file and writes the plain image, the
    second pastes the file of the first onto the code. *)
Lemma generate_qr_with_logo_depends_on_files :
  let run := generate_qr Sample.full "example.com" "out.png" 4 2 "black" "white"
               "square" (Some "out.png") (Some 20) in
  exists second,
    writes (fst (run (fst (run Sample.w0))))
    = [("out.png", Sample.img100); ("out.png", second)]
    /\ Sample.overlays second = [("out.png", (20, 20), (40, 40))]
    /\ second <> Sample.img100.
Proof.
  eexists. split; [vm_compute; reflexivity|].
  split; [reflexivity|]. discriminate.
Qed.

(** * The command line and its helpers *)

(** ** Text *)

Lemma lstrip_first (s : string) (c : ascii) :
  first_char (lstrip s) = Some c -> isspace c = false.
Proof.
  induction s as [| a r IH]; simpl; [discriminate|].
  destruct (isspace a) eqn:Ha; [exact IH|].
  simpl. intros [= <-]. exact Ha.
Qed.

Lemma lstrip_fixed (s : string) :
  (forall c, first_char s = Some c -> isspace c = false) -> lstrip s = s.
Proof.
  destruct s as [| a r]; simpl; [reflexivity|].
  intros H. rewrite (H a eq_refl). reflexivity.
Qed.

Lemma rstrip_first (s : string) (c : ascii) :
  first_char (rstrip s) = Some c -> first_char s = Some c.
Proof.
  destruct s as [| a r]; simpl; [discriminate|].
  destruct (rstrip r); [destruct (isspace a)|]; simpl; congruence.
Qed.

Lemma rstrip_idem (s : string) : rstrip (rstrip s) = rstrip s.
Proof.
  induction s as [| a r IH]; simpl; [reflexivity|].
  destruct (rstrip r) as [| b r'] eqn:Hr.
  - destruct (isspace a) eqn:Ha; simpl; [reflexivity|]. rewrite Ha. reflexivity.
  - change (rstrip (String a (String b r'))) with
      (match rstrip (String b r') with
       | EmptyString => if isspace a then EmptyString else String a EmptyString
       | r'' => String a r''
       end).
    rewrite IH. reflexivity.
Qed.

Lemma strip_idem (s : string) : strip (strip s) = strip s.
Proof.
  unfold strip.
  rewrite (lstrip_fixed (rstrip (lstrip s))).
  - apply rstrip_idem.
  - intros c Hc. apply rstrip_first in Hc. apply (lstrip_first s c Hc).
Qed.

Lemma rstrip_app (a b : string) :
  b <> EmptyString -> rstrip b = b -> rstrip (a +:+ b) = a +:+ b.
Proof.
  intros Hb Hfix. induction a as [| c a IH]; [exact Hfix|].
  change (String c a +:+ b) with (String c (a +:+ b)).
  cbn [rstrip]. rewrite IH.
  destruct (a +:+ b) eqn:Hab; [| reflexivity].
  destruct a; [contradiction | discriminate].
Qed.

Lemma all_space_strip (s : string) :
  all_chars isspace s = true -> strip s = EmptyString.
Proof.
  intros Hs. unfold strip.
  assert (Hl : lstrip s = EmptyString).
  { induction s as [| a r IH]; simpl in *; [reflexivity|].
    apply andb_true_iff in Hs. destruct Hs as [Ha Hr].
    rewrite Ha. apply IH, Hr. }
  rewrite Hl. reflexivity.
Qed.

Lemma contains_app (c : ascii) (a b : string) :
  contains c (a +:+ b) = contains c a || contains c b.
Proof.
  induction a as [| x a IH]; simpl; [reflexivity|].
  rewrite IH, orb_assoc. reflexivity.
Qed.

Section HelperFacts.

Context (S : Sys).

Lemma normalize_url_cases (url : option string) (r : string) :
  normalize_url S url = Ok r ->
  exists parsed,
    urlparse S (strip (default "" url)) = Ok parsed
    /\ ((scheme parsed <> "" /\ r = strip (default "" url))
        \/ (scheme parsed = "" /\ r = "https://" +:+ strip (default "" url))).
Proof.
  unfold normalize_url.
  destruct (urlparse S (strip (default "" url))) as [parsed | e];
    [simpl | discriminate].
  intros [= <-]. exists parsed. split; [reflexivity|].
  unfold truthy. destruct (String.eqb_spec (scheme parsed) ""); simpl; auto.
Qed.

Lemma https_prefix_stripped (s : string) :
  strip s = s -> rstrip s = s -> strip ("https://" +:+ s) = "https://" +:+ s.
Proof.
  intros _ Hr. unfold strip.
  change (lstrip ("https://" +:+ s)) with ("https://" +:+ s).
  destruct s as [| a r].
  - reflexivity.
  - apply rstrip_app; [discriminate | exact Hr].
Qed.

(** X1.  What [normalize_url] returns has no whitespace at either end,
    and normalising it again gives it back whenever the parser finds a
    scheme in it. *)
Theorem normalize_url_stripped (url : option string) (r : string) :
  normalize_url S url = Ok r ->
  strip r = r
  /\ (forall parsed,
        urlparse S r = Ok parsed -> scheme parsed <> "" ->
        normalize_url S (Some r) = Ok r).
Proof.
  intros Hn.
  assert (Hs : strip r = r).
  { destruct (normalize_url_cases url r Hn) as (parsed & _ & [[_ ->] | [_ ->]]).
    - apply strip_idem.
    - apply https_prefix_stripped; [apply strip_idem|].
      unfold strip. apply rstrip_idem. }
  split; [exact Hs|].
  intros parsed Hp Hsch. unfold normalize_url. simpl.
  rewrite Hs, Hp. simpl.
  unfold truthy. destruct (String.eqb_spec (scheme parsed) ""); [contradiction|].
  reflexivity.
Qed.

(** X2.  A URL made of whitespace only is normalised like no URL at
    all. *)
Theorem normalize_url_blank (s : string) :
  all_chars isspace s = true ->
  normalize_url S (Some s) = normalize_url S None.
Proof.
  intros Hs. unfold normalize_url. simpl.
  rewrite (all_space_strip s Hs). reflexivity.
Qed.

End HelperFacts.

Section UrlGate.

Context (S : Sys).

(** X12.  A URL with a scheme other than [http] and [https] is only
    stripped by [normalize_url], it gets no [https://] in front, and
    [is_likely_valid_url] rejects it. *)
Theorem other_scheme_is_rejected (u : string) (parsed : ParseResult) :
  urlparse S (strip u) = Ok parsed ->
  scheme parsed <> "" ->
  scheme parsed <> "http" ->
  scheme parsed <> "https" ->
  normalize_url S (Some u) = Ok (strip u)
  /\ is_likely_valid_url S (strip u) = Ok false.
Proof.
  intros Hp Hne Hhttp Hhttps. split.
  - unfold normalize_url. simpl. rewrite Hp. simpl.
    unfold truthy. destruct (String.eqb_spec (scheme parsed) "");
      [contradiction | reflexivity].
  - unfold is_likely_valid_url. rewrite Hp. simpl.
    destruct (String.eqb_spec (scheme parsed) "http"); [contradiction|].
    destruct (String.eqb_spec (scheme parsed) "https"); [contradiction|].
    reflexivity.
Qed.

End UrlGate.

(** ** File names *)

Lemma sanitize_char_safe (c : ascii) : safe_char (sanitize_char c) = true.
Proof.
  unfold sanitize_char. fold (safe_char c).
  destruct (safe_char c) eqn:Hc; [exact Hc | reflexivity].
Qed.

Lemma sanitize_char_fixed (c : ascii) :
  sanitize_char c = c <-> safe_char c = true.
Proof.
  split.
  - intros <-. apply sanitize_char_safe.
  - intros Hc. unfold sanitize_char. fold (safe_char c). rewrite Hc. reflexivity.
Qed.

Lemma contains_all_chars (f : ascii -> bool) (c : ascii) (s : string) :
  all_chars f s = true -> contains c s = true -> f c = true.
Proof.
  induction s as [| a r IH]; simpl; [discriminate|].
  intros Hall Hc. apply andb_true_iff in Hall. destruct Hall as [Ha Hr].
  apply orb_true_iff in Hc. destruct Hc as [Hc | Hc].
  - apply Ascii.eqb_eq in Hc. subst a. exact Ha.
  - apply IH; assumption.
Qed.

Lemma sanitize_filename_all_safe (text : string) :
  all_chars safe_char (sanitize_filename text) = true.
Proof.
  induction text as [| a r IH]; [reflexivity|].
  cbn [sanitize_filename all_chars]. rewrite sanitize_char_safe. exact IH.
Qed.

Lemma sanitize_filename_excludes (text : string) (c : ascii) :
  safe_char c = false -> contains c (sanitize_filename text) = false.
Proof.
  intros Hc.
  destruct (contains c (sanitize_filename text)) eqn:Hin; [| reflexivity].
  rewrite (contains_all_chars safe_char c _
             (sanitize_filename_all_safe text) Hin) in Hc.
  discriminate.
Qed.

(** X3.  [sanitize_filename] keeps the length of its input and returns
    only alphanumeric characters, hyphens and underscores: no other
    character, such as a slash, a backslash, a dot, a colon or a space,
    occurs in the result. *)
Theorem sanitize_filename_safe (text : string) :
  String.length (sanitize_filename text) = String.length text
  /\ all_chars safe_char (sanitize_filename text) = true
  /\ (forall c, safe_char c = false ->
                contains c (sanitize_filename text) = false).
Proof.
  split; [| split].
  - induction text as [| a r IH]; [reflexivity|].
    simpl. f_equal. exact IH.
  - apply sanitize_filename_all_safe.
  - intros c. apply sanitize_filename_excludes.
Qed.

(** X4.  The texts that [sanitize_filename] leaves unchanged are those
    made of alphanumeric characters, hyphens and underscores only, and
    sanitising twice is sanitising once. *)
Theorem sanitize_filename_fixed_points (text : string) :
  (sanitize_filename text = text <-> all_chars safe_char text = true)
  /\ sanitize_filename (sanitize_filename text) = sanitize_filename text.
Proof.
  assert (Hfix : forall t, all_chars safe_char t = true -> sanitize_filename t = t).
  { induction t as [| a r IH]; [reflexivity|].
    cbn [sanitize_filename all_chars]. intros H.
    apply andb_true_iff in H. destruct H as [Ha Hr].
    rewrite (proj2 (sanitize_char_fixed a) Ha), (IH Hr). reflexivity. }
  split; [split|].
  - intros <-. apply sanitize_filename_all_safe.
  - apply Hfix.
  - apply Hfix. apply sanitize_filename_all_safe.
Qed.

(** The extensions that lower-case to [.png]. *)
Lemma lower_char_dot (x : ascii) : lower_char x = "."%char -> x = "."%char.
Proof.
  destruct x as [[] [] [] [] [] [] [] []]; vm_compute; intros H;
    first [reflexivity | discriminate H].
Qed.

Lemma lower_char_p (x : ascii) :
  lower_char x = "p"%char -> x = "p"%char \/ x = "P"%char.
Proof.
  destruct x as [[] [] [] [] [] [] [] []]; vm_compute; intros H;
    first [left; reflexivity | right; reflexivity | discriminate H].
Qed.

Lemma lower_char_n (x : ascii) :
  lower_char x = "n"%char -> x = "n"%char \/ x = "N"%char.
Proof.
  destruct x as [[] [] [] [] [] [] [] []]; vm_compute; intros H;
    first [left; reflexivity | right; reflexivity | discriminate H].
Qed.

Lemma lower_char_g (x : ascii) :
  lower_char x = "g"%char -> x = "g"%char \/ x = "G"%char.
Proof.
  destruct x as [[] [] [] [] [] [] [] []]; vm_compute; intros H;
    first [left; reflexivity | right; reflexivity | discriminate H].
Qed.

Lemma lower_png (e : string) :
  lower e = ".png" ->
  exists a b c,
    e = String "." (String a (String b (String c EmptyString)))
    /\ (a = "p" \/ a = "P")%char
    /\ (b = "n" \/ b = "N")%char
    /\ (c = "g" \/ c = "G")%char.
Proof.
  destruct e as [| d [| a [| b [| c [| x r]]]]]; simpl; try discriminate.
  intros [= Hd Ha Hb Hc].
  apply lower_char_dot in Hd. subst d.
  exists a, b, c. split; [reflexivity|].
  split; [apply lower_char_p, Ha|].
  split; [apply lower_char_n, Hb | apply lower_char_g, Hc].
Qed.

Section PngFacts.

Context (S : Sys).

(** X5.  When [splitext] cuts the path into a root and an extension
    that join back to the path, [ensure_png_extension] returns the root
    followed by [.png] in some letter case; a path whose extension
    already is [.png] in some case is returned as it is. *)
Theorem ensure_png_extension_keeps_root (path root ext : string) :
  splitext S path = (root, ext) ->
  root +:+ ext = path ->
  (lower ext = ".png" -> ensure_png_extension S path = path)
  /\ exists a b c,
       ensure_png_extension S path
       = root +:+ String "." (String a (String b (String c EmptyString)))
       /\ (a = "p" \/ a = "P")%char
       /\ (b = "n" \/ b = "N")%char
       /\ (c = "g" \/ c = "G")%char.
Proof.
  intros Hsplit Hjoin. unfold ensure_png_extension. rewrite Hsplit.
  destruct (String.eqb_spec (lower ext) ".png") as [Hpng | Hother].
  - split; [reflexivity|].
    destruct (lower_png ext Hpng) as (a & b & c & -> & Ha & Hb & Hc).
    exists a, b, c. rewrite Hjoin. auto.
  - split; [contradiction|].
    exists "p"%char, "n"%char, "g"%char. auto.
Qed.

Lemma append_empty (a b : string) :
  a +:+ b = EmptyString -> a = EmptyString /\ b = EmptyString.
Proof. destruct a; simpl; [auto | discriminate]. Qed.

Lemma ensure_png_extension_empty :
  fst (splitext S "") +:+ snd (splitext S "") = "" ->
  ensure_png_extension S "" = ".png".
Proof.
  intros Hjoin. unfold ensure_png_extension.
  destruct (splitext S "") as [root ext]. simpl in Hjoin.
  apply append_empty in Hjoin. destruct Hjoin as [-> ->]. reflexivity.
Qed.

End PngFacts.

(** ** The command line *)

Section MainFacts.

Context {image logo FS : Type} (L : Lib image logo FS) (S : Sys).

Lemma generate_qr_outcomes url output_path bs bd fill_color back_color style
    logo_path logo_size (w : world image FS) :
  (exists e,
     generate_qr L url output_path bs bd fill_color back_color style
       logo_path logo_size w = (w, Raise e))
  \/ (exists img,
        generate_qr L url output_path bs bd fill_color back_color style
          logo_path logo_size w
        = ({| fs := fst (save L (fs w) img output_path);
              writes := writes w ++ [(output_path, img)] |},
           snd (save L (fs w) img output_path) ;;; Ok output_path)).
Proof.
  destruct (new_QRCode L url bs bd) as [qr | e] eqn:Hq.
  - destruct (render L qr fill_color back_color style) as [img | e] eqn:Hr.
    + right. eexists.
      apply (generate_qr_composed L url output_path bs bd fill_color back_color
               style logo_path logo_size w qr img Hq Hr).
    + left. exists e.
      apply (generate_qr_render_raises L url output_path bs bd fill_color
               back_color style logo_path logo_size w qr e Hq Hr).
  - left. exists e.
    apply (generate_qr_encoding_raises L url output_path bs bd fill_color
             back_color style logo_path logo_size w e Hq).
Qed.

Lemma is_likely_valid_url_true (url : string) :
  is_likely_valid_url S url = Ok true ->
  exists parsed,
    urlparse S url = Ok parsed
    /\ (scheme parsed = "http" \/ scheme parsed = "https")
    /\ netloc parsed <> "".
Proof.
  unfold is_likely_valid_url.
  destruct (urlparse S url) as [parsed | e]; [simpl | discriminate].
  intros [= H]. exists parsed. split; [reflexivity|].
  apply andb_true_iff in H. destruct H as [Hs Hn].
  split.
  - apply orb_true_iff in Hs.
    destruct Hs as [Hs | Hs]; apply String.eqb_eq in Hs; auto.
  - unfold truthy in Hn. intros Heq. rewrite Heq in Hn. discriminate.
Qed.

Lemma read_url_cases (args : Namespace) (p : process image FS) :
  exists p1,
    files p1 = files p
    /\ ((exists u, read_url S args p = (p1, Returns u))
        \/ (exists e, input S "Enter URL to encode: " = Raise e
                      /\ read_url S args p = (p1, Raises e))).
Proof.
  unfold read_url. destruct (truthy_opt (args_url args)).
  - exists p. split; [reflexivity|]. left. eexists. reflexivity.
  - exists {| files := files p;
              stdout := stdout p ++ [Prompted "Enter URL to encode: "] |}.
    split; [reflexivity|].
    unfold io_bind, io_input, io_ret.
    destruct (input S "Enter URL to encode: ") as [line | e]; simpl.
    + left. eexists. reflexivity.
    + right. exists e. auto.
Qed.

Lemma choose_output_path_cases (args : Namespace) (url : string)
    (p : process image FS) :
  (exists path, choose_output_path S args url p = (p, Returns path))
  \/ (exists e, urlparse S url = Raise e
                /\ choose_output_path S args url p = (p, Raises e)).
Proof.
  unfold choose_output_path. destruct (truthy_opt (args_output args)).
  - left. eexists. reflexivity.
  - unfold io_bind, io_lift, io_ret.
    destruct (urlparse S url) as [parsed | e]; simpl.
    + left. eexists. reflexivity.
    + right. exists e. auto.
Qed.

(** [main], stage by stage. *)
Lemma main_steps (args : Namespace) (p : process image FS) :
  main L S args p
  = match read_url S args p with
    | (p1, Returns u) =>
        match normalize_url S (Some u) with
        | Raise e => (p1, Raises e)
        | Ok url =>
            match is_likely_valid_url S url with
            | Raise e => (p1, Raises e)
            | Ok false =>
                ({| files := files p1;
                    stdout := stdout p1 ++
                      [Printed "Error: Please provide a valid URL (e.g., https://example.com)."] |},
                 Exits 1)
            | Ok true =>
                match choose_output_path S args url p1 with
                | (p2, Returns path) =>
                    match generate_qr L url path
                            (args_box_size args) (args_border args)
                            (args_fg args) (args_bg args) (args_style args)
                            (args_logo args) (Some (args_logo_size args))
                            (files p2) with
                    | (w', Ok saved) =>
                        ({| files := w';
                            stdout := stdout p2 ++
                              [Printed ("QR code generated and saved to: "
                                        +:+ abspath S saved)] |},
                         Returns tt)
                    | (w', Raise e) =>
                        ({| files := w';
                            stdout := stdout p2 ++
                              [Printed ("Failed to generate QR code: "
                                        +:+ str_exn S e)] |},
                         Exits 1)
                    end
                | (p2, Raises e) => (p2, Raises e)
                | (p2, Exits n) => (p2, Exits n)
                end
            end
        end
    | (p1, Raises e) => (p1, Raises e)
    | (p1, Exits n) => (p1, Exits n)
    end.
Proof.
  unfold main. unfold io_bind at 1.
  destruct (read_url S args p) as [p1 [u | e | n]]; try reflexivity.
  unfold io_bind at 1. unfold io_lift at 1.
  destruct (normalize_url S (Some u)) as [url | e]; [| reflexivity].
  cbn [completion_of].
  unfold io_bind at 1. unfold io_lift at 1.
  destruct (is_likely_valid_url S url) as [[|] | e]; [| | reflexivity].
  - cbn [completion_of negb]. unfold io_bind at 1. unfold io_ret at 1.
    unfold io_bind at 1.
    destruct (choose_output_path S args url p1) as [p2 [path | e | n]];
      try reflexivity.
    unfold io_try, io_bind, io_run, print, sys_exit.
    destruct (generate_qr L url path (args_box_size args) (args_border args)
                (args_fg args) (args_bg args) (args_style args)
                (args_logo args) (Some (args_logo_size args)) (files p2))
      as [w' [saved | e]]; reflexivity.
  - reflexivity.
Qed.

(** X6.  When the normalised URL is not judged valid, [main] prints the
    error line and exits with status 1; the files are untouched. *)
Theorem main_invalid_url (args : Namespace) (p p1 : process image FS)
    (u url : string) :
  read_url S args p = (p1, Returns u) ->
  normalize_url S (Some u) = Ok url ->
  is_likely_valid_url S url = Ok false ->
  main L S args p
  = ({| files := files p;
        stdout := stdout p1 ++
          [Printed "Error: Please provide a valid URL (e.g., https://example.com)."] |},
     Exits 1).
Proof.
  intros Hread Hnorm Hvalid.
  destruct (read_url_cases args p) as (p1' & Hfiles & [[u' Hr] | (e & _ & Hr)]);
    rewrite Hr in Hread; [| discriminate].
  injection Hread as -> ->.
  rewrite main_steps, Hr, Hnorm, Hvalid, Hfiles. reflexivity.
Qed.


(** X8.  What [main] does to the files is what [generate_qr] does,
    called on the URL that was read, normalised and judged valid, and on
    the chosen path.  So [main] leaves the files as they are, or saves
    exactly one file, and then the saved image is the rendering of the
    code that encodes that very URL (with the logo overlaid), a URL
    whose scheme is [http] or [https] and whose network location is not
    empty. *)
Theorem main_saves_valid_urls_only (args : Namespace) (p : process image FS) :
  (forall p1 u url path,
     read_url S args p = (p1, Returns u) ->
     normalize_url S (Some u) = Ok url ->
     is_likely_valid_url S url = Ok true ->
     choose_output_path S args url p1 = (p1, Returns path) ->
     files (fst (main L S args p))
     = fst (generate_qr L url path (args_box_size args) (args_border args)
              (args_fg args) (args_bg args) (args_style args)
              (args_logo args) (Some (args_logo_size args)) (files p)))
  /\ (files (fst (main L S args p)) = files p
      \/ exists p1 u url parsed path qr img,
           read_url S args p = (p1, Returns u)
           /\ normalize_url S (Some u) = Ok url
           /\ is_likely_valid_url S url = Ok true
           /\ urlparse S url = Ok parsed
           /\ (scheme parsed = "http" \/ scheme parsed = "https")
           /\ netloc parsed <> ""
           /\ choose_output_path S args url p1 = (p1, Returns path)
           /\ new_QRCode L url (args_box_size args) (args_border args) = Ok qr
           /\ render L qr (args_fg args) (args_bg args) (args_style args)
              = Ok img
           /\ writes (files (fst (main L S args p)))
              = writes (files p)
                ++ [(path,
                     _paste_logo_center L (fs (files p)) (as_pil L img)
                       (args_logo args) (Some (args_logo_size args)))]).
Proof.
  split.
  - intros p1 u url path Hread Hnorm Hvalid Hpath.
    destruct (read_url_cases args p) as (p1' & Hf & [[u' Hr] | (e0 & _ & Hr)]);
      rewrite Hr in Hread; [| discriminate].
    injection Hread as -> ->.
    rewrite main_steps, Hr, Hnorm, Hvalid, Hpath, Hf.
    destruct (generate_qr L url path (args_box_size args) (args_border args)
                (args_fg args) (args_bg args) (args_style args)
                (args_logo args) (Some (args_logo_size args)) (files p))
      as [w' [saved | e]]; reflexivity.
  - rewrite main_steps.
    destruct (read_url_cases args p) as (p1 & Hf & [[u Hr] | (e0 & Hin & Hr)]);
      rewrite Hr; [| left; exact Hf].
    destruct (normalize_url S (Some u)) as [url | e0] eqn:Hnorm;
      [| left; exact Hf].
    destruct (is_likely_valid_url S url) as [[|] | e0] eqn:Hvalid;
      [| left; exact Hf | left; exact Hf].
    destruct (is_likely_valid_url_true url Hvalid) as (parsed & Hp & Hs & Hn).
    destruct (choose_output_path_cases args url p1)
      as [[path Hc] | (e0 & _ & Hc)]; rewrite Hc; [| left; exact Hf].
    rewrite Hf.
    destruct (new_QRCode L url (args_box_size args) (args_border args))
      as [qr | e] eqn:Hq.
    + destruct (render L qr (args_fg args) (args_bg args) (args_style args))
        as [img | e] eqn:Hr'.
      * right. exists p1, u, url, parsed, path, qr, img.
        repeat (split; [assumption || reflexivity|]).
        rewrite (generate_qr_composed L url path _ _ _ _ _ (args_logo args)
                   (Some (args_logo_size args)) (files p) qr img Hq Hr').
        cbv zeta.
        destruct (snd (save L (fs (files p)) _ path) ;;; Ok path);
          reflexivity.
      * left.
        rewrite (generate_qr_render_raises L url path _ _ _ _ _
                   (args_logo args) (Some (args_logo_size args)) (files p)
                   qr e Hq Hr').
        reflexivity.
    + left.
      rewrite (generate_qr_encoding_raises L url path _ _ _ _ _
                 (args_logo args) (Some (args_logo_size args)) (files p)
                 e Hq).
      reflexivity.
Qed.

(** X9.  When [main] returns, one file was saved, the save succeeded
    and the last line printed names the absolute path of that file. *)
Theorem main_success (args : Namespace) (p : process image FS) :
  snd (main L S args p) = Returns tt ->
  exists path img out,
    writes (files (fst (main L S args p))) = writes (files p) ++ [(path, img)]
    /\ snd (save L (fs (files p)) img path) = Ok tt
    /\ stdout (fst (main L S args p))
       = out ++ [Printed ("QR code generated and saved to: "
                          +:+ abspath S path)].
Proof.
  rewrite main_steps.
  destruct (read_url_cases args p) as (p1 & Hf & [[u Hr] | (e0 & Hin & Hr)]);
    rewrite Hr; [| discriminate].
  destruct (normalize_url S (Some u)) as [url | e0]; [| discriminate].
  destruct (is_likely_valid_url S url) as [[|] | e0]; try discriminate.
  destruct (choose_output_path_cases args url p1)
    as [[path Hc] | (e0 & _ & Hc)]; rewrite Hc; [| discriminate].
  destruct (generate_qr_outcomes url path (args_box_size args)
              (args_border args) (args_fg args) (args_bg args)
              (args_style args) (args_logo args)
              (Some (args_logo_size args)) (files p1))
    as [[e Hg] | [img Hg]]; rewrite Hg; [discriminate|].
  rewrite Hf.
  destruct (save L (fs (files p)) img path) as [fs' [[] | e]] eqn:Hsave;
    simpl; [| discriminate].
  intros _. exists path, img, (stdout p1). repeat split; try reflexivity.
  rewrite Hsave. reflexivity.
Qed.

(** X10.  Without [-o], for a URL judged valid, the file is named
    [qr_], the sanitised network location, [_], the time stamp, [.png];
    the host [qr] is never used, and the name has no slash unless the
    time stamp has one. *)
Theorem choose_output_path_auto (args : Namespace) (url : string)
    (p : process image FS) :
  is_likely_valid_url S url = Ok true ->
  truthy_opt (args_output args) = false ->
  exists parsed,
    urlparse S url = Ok parsed
    /\ choose_output_path S args url p
       = (p, Returns ("qr_" +:+ sanitize_filename (netloc parsed) +:+ "_"
                      +:+ strftime_now S "%Y%m%d_%H%M%S" +:+ ".png"))
    /\ (contains "/" (strftime_now S "%Y%m%d_%H%M%S") = false ->
        contains "/" ("qr_" +:+ sanitize_filename (netloc parsed) +:+ "_"
                      +:+ strftime_now S "%Y%m%d_%H%M%S" +:+ ".png") = false).
Proof.
  intros Hvalid Hout.
  destruct (is_likely_valid_url_true url Hvalid) as (parsed & Hp & _ & Hn).
  exists parsed. split; [exact Hp|]. split.
  - unfold choose_output_path. rewrite Hout.
    unfold io_bind, io_lift, io_ret. rewrite Hp. simpl.
    unfold truthy. destruct (String.eqb_spec (netloc parsed) "");
      [contradiction | reflexivity].
  - intros Hts. rewrite !contains_app, Hts.
    rewrite (sanitize_filename_excludes (netloc parsed) "/"%char eq_refl).
    reflexivity.
Qed.

(** X11.  An [-o] value made of whitespace only names the file [.png],
    when [splitext] cuts the empty path into parts that join back to
    it. *)
Theorem choose_output_path_blank (args : Namespace) (url o : string)
    (p : process image FS) :
  fst (splitext S "") +:+ snd (splitext S "") = "" ->
  args_output args = Some o ->
  o <> "" ->
  all_chars isspace o = true ->
  choose_output_path S args url p = (p, Returns ".png").
Proof.
  intros Hjoin Ho Hne Hsp. unfold choose_output_path. rewrite Ho. simpl.
  unfold truthy. destruct (String.eqb_spec o ""); [contradiction|]. simpl.
  rewrite (all_space_strip o Hsp).
  rewrite (ensure_png_extension_empty S Hjoin). reflexivity.
Qed.

End MainFacts.

(** ** Logo placement *)

(** X13.  On an image of 1 to 2^32 pixels the width of the logo is
    computed without an exception, lies between 5 percent (less one
    pixel) and 40 percent of the image width, is at least one pixel and
    at most the image width, and the floor-centred offset keeps the logo
    between the left and the right edge. *)
Theorem logo_fits_horizontally (qr_w qr_h target_h : Z) (logo_pct : option Z) :
  1 <= qr_w <= 2 ^ 32 ->
  exists t,
    target_width qr_w logo_pct = Ok t
    /\ Z.max 1 (qr_w * 5 / 100) - 1 <= t <= Z.max 1 (qr_w * 40 / 100)
    /\ 1 <= t <= qr_w
    /\ 0 <= fst (center_pos qr_w qr_h t target_h)
    /\ fst (center_pos qr_w qr_h t target_h) + t <= qr_w.
Proof.
  intros Hw.
  destruct (target_width_near_quotient qr_w logo_pct ltac:(lia))
    as (t & Ht & Hlo & Hhi).
  pose proof (logo_percent_range logo_pct) as Hc.
  set (c := logo_percent logo_pct) in *.
  assert (H5 : qr_w * 5 / 100 <= qr_w * c / 100).
  { apply Z.div_le_mono; [lia|]. apply Z.mul_le_mono_nonneg_l; lia. }
  assert (H40 : qr_w * c / 100 <= qr_w * 40 / 100).
  { apply Z.div_le_mono; [lia|]. apply Z.mul_le_mono_nonneg_l; lia. }
  assert (Hfit : qr_w * 40 / 100 <= qr_w).
  { apply Z.div_le_upper_bound; lia. }
  pose proof (target_width_positive _ _ _ Ht) as H1.
  exists t. split; [exact Ht|].
  split; [lia|]. split; [lia|].
  unfold center_pos. cbn [fst].
  pose proof (Z.div_mod (qr_w - t) 2 ltac:(lia)).
  pose proof (Z.mod_pos_bound (qr_w - t) 2 ltac:(lia)).
  lia.
Qed.

Section ZeroWidth.

Context {image logo FS : Type} (L : Lib image logo FS).

(** X14.  A logo that decodes with width zero is skipped: the division
    by its width raises [ZeroDivisionError] inside the [try] block and
    [_paste_logo_center] returns the image it was given. *)
Theorem zero_width_logo_is_skipped fs pil_img path logo_pct lg :
  Image_open L fs path = Ok lg ->
  logo_width L lg = 0 ->
  _paste_logo_center L fs pil_img (Some path) logo_pct = pil_img.
Proof.
  intros Hopen Hzero.
  assert (Hraise : exists e, paste_logo L fs pil_img path logo_pct = Raise e).
  { unfold paste_logo. rewrite Hopen. cbn [bind].
    destruct (size L pil_img) as [qr_w qr_h].
    destruct (target_width qr_w logo_pct) as [tw | e]; cbn [bind].
    - rewrite Hzero, target_height_zero_width. eexists. reflexivity.
    - eexists. reflexivity. }
  destruct Hraise as [e He].
  exact (_paste_logo_center_raise L fs pil_img path logo_pct e He).
Qed.

End ZeroWidth.

(** ** The properties on the sample instances *)

Lemma normalize_url_stripped_witness :
  normalize_url Host.sys (Some "  example.com ") = Ok "https://example.com"
  /\ strip "https://example.com" = "https://example.com"
  /\ normalize_url Host.sys (Some "https://example.com")
     = Ok "https://example.com".
Proof.
  assert (H : normalize_url Host.sys (Some "  example.com ")
              = Ok "https://example.com") by (vm_compute; reflexivity).
  split; [exact H|].
  split; [exact (proj1 (normalize_url_stripped Host.sys _ _ H))|].
  refine (proj2 (normalize_url_stripped Host.sys _ _ H)
            {| scheme := "https"; netloc := "example.com" |} _ _).
  - vm_compute. reflexivity.
  - discriminate.
Defined.

Lemma normalize_url_blank_witness :
  normalize_url Host.sys (Some "   ") = normalize_url Host.sys None.
Proof. apply (normalize_url_blank Host.sys "   "). reflexivity. Defined.

Lemma other_scheme_is_rejected_witness :
  normalize_url Host.sys (Some " mailto:x@y ") = Ok "mailto:x@y"
  /\ is_likely_valid_url Host.sys "mailto:x@y" = Ok false.
Proof.
  refine (other_scheme_is_rejected Host.sys " mailto:x@y "
            {| scheme := "mailto"; netloc := "" |} _ _ _ _).
  - vm_compute. reflexivity.
  - discriminate.
  - discriminate.
  - discriminate.
Defined.

Lemma sanitize_filename_safe_witness :
  contains "/" (sanitize_filename "a/b.c:8080") = false
  /\ contains "." (sanitize_filename "a/b.c:8080") = false.
Proof.
  split.
  - exact (proj2 (proj2 (sanitize_filename_safe "a/b.c:8080")) "/"%char
             eq_refl).
  - exact (proj2 (proj2 (sanitize_filename_safe "a/b.c:8080")) "."%char
             eq_refl).
Defined.

Lemma sanitize_filename_fixed_points_witness :
  sanitize_filename "ex-ample_1" = "ex-ample_1".
Proof.
  apply (proj2 (proj1 (sanitize_filename_fixed_points "ex-ample_1"))).
  reflexivity.
Defined.

Lemma ensure_png_extension_keeps_root_witness :
  exists a b c,
    ensure_png_extension Host.sys "img/out.JPG"
    = "img/out" +:+ String "." (String a (String b (String c EmptyString)))
    /\ (a = "p" \/ a = "P")%char
    /\ (b = "n" \/ b = "N")%char
    /\ (c = "g" \/ c = "G")%char.
Proof.
  refine (proj2 (ensure_png_extension_keeps_root Host.sys "img/out.JPG"
                   "img/out" ".JPG" _ _)); vm_compute; reflexivity.
Defined.

Lemma main_invalid_url_witness :
  main Sample.full Host.sys (Host.args (Some "ftp://x") None "black") Host.p0
  = ({| files := files Host.p0;
        stdout := stdout Host.p0 ++
          [Printed "Error: Please provide a valid URL (e.g., https://example.com)."] |},
     Exits 1).
Proof.
  apply (main_invalid_url Sample.full Host.sys
           (Host.args (Some "ftp://x") None "black") Host.p0 Host.p0
           "ftp://x" "ftp://x"); vm_compute; reflexivity.
Defined.


Lemma main_saves_valid_urls_only_witness :
  files (fst (main Sample.full Host.sys
                (Host.args (Some " example.com") (Some "out") "black") Host.p0))
  = fst (generate_qr Sample.full "https://example.com" "out.png" 10 4
           "black" "white" "square" None (Some 20) Sample.w0).
Proof.
  apply (proj1 (main_saves_valid_urls_only Sample.full Host.sys
                  (Host.args (Some " example.com") (Some "out") "black")
                  Host.p0)
           Host.p0 " example.com" "https://example.com" "out.png");
    vm_compute; reflexivity.
Defined.

Lemma main_success_witness :
  exists path img out,
    writes (files (fst (main Sample.full Host.sys
                          (Host.args None None "black") Host.p0)))
    = writes (files Host.p0) ++ [(path, img)]
    /\ snd (save Sample.full (fs (files Host.p0)) img path) = Ok tt
    /\ stdout (fst (main Sample.full Host.sys
                      (Host.args None None "black") Host.p0))
       = out ++ [Printed ("QR code generated and saved to: "
                          +:+ abspath Host.sys path)].
Proof.
  apply (main_success Sample.full Host.sys (Host.args None None "black")
           Host.p0).
  vm_compute. reflexivity.
Defined.

Lemma choose_output_path_auto_witness :
  exists parsed,
    urlparse Host.sys "https://example.com/a" = Ok parsed
    /\ choose_output_path Host.sys (Host.args None None "black")
         "https://example.com/a" Host.p0
       = (Host.p0,
          Returns ("qr_" +:+ sanitize_filename (netloc parsed) +:+ "_"
                   +:+ strftime_now Host.sys "%Y%m%d_%H%M%S" +:+ ".png")).
Proof.
  destruct (choose_output_path_auto Host.sys (Host.args None None "black")
              "https://example.com/a" Host.p0)
    as (parsed & Hp & Hc & _).
  - vm_compute. reflexivity.
  - reflexivity.
  - exists parsed. split; [exact Hp | exact Hc].
Defined.

Lemma choose_output_path_blank_witness :
  choose_output_path Host.sys (Host.args (Some "example.com") (Some "  ") "black")
    "https://example.com" Host.p0
  = (Host.p0, Returns ".png").
Proof.
  apply (choose_output_path_blank Host.sys
           (Host.args (Some "example.com") (Some "  ") "black")
           "https://example.com" "  " Host.p0).
  - vm_compute. reflexivity.
  - reflexivity.
  - discriminate.
  - reflexivity.
Defined.

Lemma logo_fits_horizontally_witness :
  exists t,
    target_width 290 (Some 20) = Ok t
    /\ Z.max 1 (290 * 5 / 100) - 1 <= t <= Z.max 1 (290 * 40 / 100)
    /\ 1 <= t <= 290
    /\ 0 <= fst (center_pos 290 290 t 29)
    /\ fst (center_pos 290 290 t 29) + t <= 290.
Proof.
  apply (logo_fits_horizontally 290 290 29 (Some 20)). vm_compute.
  split; discriminate.
Defined.

Lemma zero_width_logo_is_skipped_witness :
  _paste_logo_center Sample.full
    (<["flat.png" := Sample.LogoFile
         {| Sample.name := "flat.png"; Sample.lw := 0; Sample.lh := 7 |}]> ∅)
    Sample.img100 (Some "flat.png") (Some 20)
  = Sample.img100.
Proof.
  apply (zero_width_logo_is_skipped Sample.full _ Sample.img100 "flat.png"
           (Some 20)
           {| Sample.name := "flat.png"; Sample.lw := 0; Sample.lh := 7 |}).
  - vm_compute. reflexivity.
  - reflexivity.
Defined.
